(** * Ultrasound-GUI: the capture window of [mainwindow.cpp]

    A shallow embedding of the [MainWindow] class (Qt widgets application):
    the CSV capture life cycle ([on_btnStart_clicked], the timer lambda,
    [on_btnStop_clicked], [startCsvRecording], [stopCsvRecording],
    [writeCsvData]), the sensor frame parser ([readData]) and the zero
    calibration ([on_btnZero_clicked], [resetValues]).

    Conventions of the embedding.
    - Every slot is a function on the window state; what the Qt event loop
      delivers (button clicks, [readyRead], a timer's [timeout]) is an
      [Event], and what the environment decides (the bytes on the wire, the
      clock, whether a file or a port can be opened) travels with the event.
    - [QTimer] objects live in a heap ([timers]) and [csvTimer] points into
      it, so that a timer replaced by a later start is still there to be
      asked whether it can fire.
    - [int] is a 32-bit two's-complement integer. A [double] is the rational
      it denotes, and every operation on [double]s rounds its exact result
      to binary64 (module [Double]): to the nearest value with a 53-bit
      significand, a tie going to the even significand.
    - Where C++ leaves the result open the model follows x86-64: [int]
      arithmetic wraps, and a [double] whose truncation is no [int] converts
      to [INT_MIN]. *)

From Stdlib Require Import ZArith QArith Qabs Qround Qpower String Ascii List.
From Stdlib Require Import Lia Lqa DecimalString SpecFloat.
From stdpp Require Import gmap strings list.
Import ListNotations.

Local Open Scope Z_scope.

(** ** Binary64 arithmetic

    [fl x] is the binary64 value nearest to the rational [x]: with
    [2^e <= |x| < 2^(e+1)] the multiple of [2^(e-52)] nearest to [x], a tie
    going to the even multiple. The exponent is not bounded: [fl] is the
    rounding of the hardware for every [x] from [2^-1022] up to the largest
    binary64 value in magnitude, which holds the spin-box values
    ([1e-8 .. 1000] and [1 .. 3600]), their product and [1000.0 / fps].
    (Outside it the conversions of the start slot agree all the same: a
    product that underflows gives 0.5 once 0.5 is added either way, and a
    value that overflows is no [int] either way.) *)

Module Double.

(** [ilog2 x], for [0 < x]: the integer [e] with [2^e <= x < 2^(e+1)]. *)
Definition ilog2 (x : Q) : Z :=
  let k := Z.log2 (Qnum x) - Z.log2 (Z.pos (Qden x)) in
  if Qle_bool (2 ^ k) x then k else k - 1.

(** The integer nearest to [q], a tie going to the even one. *)
Definition rne (q : Q) : Z :=
  let f := Qfloor q in
  match (q - inject_Z f ?= 1 # 2)%Q with
  | Lt => f
  | Gt => f + 1
  | Eq => if Z.even f then f else f + 1
  end.

Definition fl (x : Q) : Q :=
  match Qnum x with
  | Z0 => 0%Q
  | Z.pos _ =>
      let u := (2 ^ (ilog2 x - 52))%Q in (inject_Z (rne (x / u)) * u)%Q
  | Z.neg _ =>
      let u := (2 ^ (ilog2 (- x) - 52))%Q in
      (- (inject_Z (rne (- x / u)) * u))%Q
  end.

Definition add (a b : Q) : Q := fl (a + b).
Definition sub (a b : Q) : Q := fl (a - b).
Definition mul (a b : Q) : Q := fl (a * b).
Definition div (a b : Q) : Q := fl (a / b).

(** An [int] converted to [double]: exact. *)
Definition of_int (z : Z) : Q := inject_Z z.

End Double.

(** The same operations in the Standard Library's specification of IEEE 754
    ([SpecFloat], precision 53, exponents up to 1024), to compare [Double]
    with. *)
Module Binary64.

Definition of_Z (z : Z) : spec_float := binary_normalize 53 1024 z 0 false.

Definition to_Q (f : spec_float) : Q :=
  match f with
  | S754_finite s m e =>
      ((if s then - inject_Z (Z.pos m) else inject_Z (Z.pos m)) * 2 ^ e)%Q
  | _ => 0%Q
  end.

Definition add : spec_float -> spec_float -> spec_float := SFadd 53 1024.
Definition mul : spec_float -> spec_float -> spec_float := SFmul 53 1024.
Definition div : spec_float -> spec_float -> spec_float := SFdiv 53 1024.

(** [op] of [Double] and [sfop] of [SpecFloat] give the same value on [x]
    and [y]. *)
Definition agree (op : Q -> Q -> Q)
    (sfop : spec_float -> spec_float -> spec_float) (x y : spec_float) : bool :=
  Qeq_bool (op (to_Q x) (to_Q y)) (to_Q (sfop x y)).

(** Rates and durations to compare on: 0.3, 0.00000001, 0.000001, 3.2,
    222.22222222222223 and 0.49999999999999994 as binary64; 0.5 and some
    integers. *)
Definition rates : list spec_float :=
  [div (of_Z 3) (of_Z 10); div (of_Z 1) (of_Z 100000000);
   div (of_Z 1) (of_Z 1000000); div (of_Z 32) (of_Z 10);
   div (of_Z 2000) (of_Z 9); S754_finite false 9007199254740991 (-54);
   div (of_Z 1) (of_Z 2); of_Z 1; of_Z 30; of_Z 667; of_Z 1000; of_Z 1000000].

Definition durations : list spec_float :=
  [of_Z 1; of_Z 3; of_Z 5; of_Z 60; of_Z 3600].

End Binary64.

(** ** Machine integers and Qt's numeric helpers *)

Module Int.

Definition min_int : Z := - 2 ^ 31.
Definition max_int : Z := 2 ^ 31 - 1.

Definition in_range (z : Z) : bool := (min_int <=? z) && (z <=? max_int).

(** [int] arithmetic that leaves the range is undefined in C++; the model
    wraps, as two's-complement hardware does. *)
Definition wrap (z : Z) : Z := (z + 2 ^ 31) mod 2 ^ 32 - 2 ^ 31.

(** [d] truncated towards zero. *)
Definition truncate (d : Q) : Z := if Qle_bool 0 d then Qfloor d else Qceiling d.

(** [int(d)] for a [double] [d]: truncation towards zero. C++ defines the
    conversion only when the truncated value is an [int]; otherwise the
    x86-64 instruction ([cvttsd2si]) answers [INT_MIN], and so does the
    model. *)
Definition of_double (d : Q) : Z :=
  let t := truncate d in if in_range t then t else min_int.

End Int.

(** [qRound(double)] of qglobal.h:
    [d >= 0.0 ? int(d + 0.5) : int(d - 0.5)], the sum and the difference
    being [double] operations. (Older Qt versions write the negative branch
    differently; the window only rounds positive values.) *)
Definition qRound (d : Q) : Z :=
  if Qle_bool 0 d then Int.of_double (Double.add d (1 # 2))
  else Int.of_double (Double.sub d (1 # 2)).

(** [qMax] at type [int]. *)
Definition qMax (a b : Z) : Z := if a <? b then b else a.

(** ** Strings: [QString::trimmed], [QString::split], [QString::toInt]

    The received bytes are taken to be ASCII, on which [QString::fromUtf8]
    is the identity. *)

Module QString.

(** [QChar::isSpace] on ASCII: tab, line feed, vertical tab, form feed,
    carriage return and space. *)
Definition isSpace (c : ascii) : bool :=
  let n := nat_of_ascii c in
  ((9 <=? n)%nat && (n <=? 13)%nat) || (n =? 32)%nat.

Fixpoint dropSpaces (cs : list ascii) : list ascii :=
  match cs with
  | c :: cs' => if isSpace c then dropSpaces cs' else cs
  | [] => []
  end.

Definition trimmedChars (cs : list ascii) : list ascii :=
  rev (dropSpaces (rev (dropSpaces cs))).

Definition trimmed (s : string) : string :=
  string_of_list_ascii (trimmedChars (list_ascii_of_string s)).

(** [split(sep)] with the default [Qt::KeepEmptyParts]: the pieces between
    the separators, empty ones included; the empty string gives one empty
    piece. *)
Fixpoint split (sep : ascii) (s : string) : list string :=
  match s with
  | EmptyString => [EmptyString]
  | String c s' =>
      if Ascii.eqb c sep then EmptyString :: split sep s'
      else match split sep s' with
           | piece :: pieces => String c piece :: pieces
           | [] => [String c EmptyString]
           end
  end.

Definition digit (c : ascii) : option Z :=
  let n := nat_of_ascii c in
  if ((48 <=? n)%nat && (n <=? 57)%nat) then Some (Z.of_nat n - 48) else None.

Fixpoint digits (acc : Z) (cs : list ascii) : option Z :=
  match cs with
  | [] => Some acc
  | c :: cs' =>
      match digit c with
      | Some d => digits (10 * acc + d) cs'
      | None => None
      end
  end.

(** [toInt(&ok)] in base 10: surrounding white space is skipped, one sign
    is allowed, at least one digit is required, and a value outside [int]
    fails. [Some v] is [ok = true] with result [v]; [None] is
    [ok = false]. *)
Definition toInt (s : string) : option Z :=
  let cs := trimmedChars (list_ascii_of_string s) in
  let '(negative, ds) :=
    match cs with
    | "-"%char :: r => (true, r)
    | "+"%char :: r => (false, r)
    | _ => (false, cs)
    end in
  match ds with
  | [] => None
  | _ =>
      match digits 0 ds with
      | Some v =>
          let v' := if negative then - v else v in
          if Int.in_range v' then Some v' else None
      | None => None
      end
  end.

End QString.

(** ** The objects the window owns *)

(** A [QTimer] together with the lambda connected to its [timeout] signal:
    [totalFrames] and [framesCaptured] are the lambda's by-value captures
    (the lambda is [mutable], so [framesCaptured] is its own counter). *)
Record QTimer := mkQTimer {
  isActive : bool;
  interval : Z;
  totalFrames : Z;
  framesCaptured : Z;
  deleteLater : bool
}.

(** [QFile]: the name it is bound to and whether it is open. *)
Record QFile := mkQFile {
  fileName : string;
  isOpen : bool
}.

Record QSerialPort := mkQSerialPort {
  portName : string;
  portIsOpen : bool
}.

(** One data line of the CSV file: the time stamp and the six [double]s
    handed to the stream, all of them integers. [rowText] below is the text
    the stream prints for it. *)
Record CsvRow := mkCsvRow {
  rowTimestamp : string;
  rowTopLeft : Z;
  rowTopRight : Z;
  rowBotLeft : Z;
  rowTopLeftRaw : Z;
  rowTopRightRaw : Z;
  rowBotLeftRaw : Z
}.

Inductive CsvLine :=
| TextLine (text : string)
| DataLine (row : CsvRow).

Definition csvHeader : string :=
  "Timestamp,Top Left,Top Right,Bottom Left,Top Left w/o Zero,Top Right w/o Zero,Bottom Left w/o Zero".

(** The widgets of [ui] the slots read and write: three [QLCDNumber]s (their
    [value()] is the number last passed to [display], also when it does not
    fit the digits) and the progress bar. *)
Record Ui := mkUi {
  botLeftNum : Z;
  topLeftNum : Z;
  topRightNum : Z;
  progressMaximum : Z;
  progressValue : Z
}.

Inductive Dialog :=
| InvalidInput
| CsvCreateFailed
| PortOpened
| PortOpenFailed
| PicoOpened
| PicoOpenFailed.

(** The members of [MainWindow], the function-local [static] buffer of
    [readData], and the part of the world the window acts on: the timer
    heap, the files on disk and the bytes sent to the Pico. *)
Record MainWindow := mkMainWindow {
  ui : Ui;
  _serialPort : option QSerialPort;
  Pico_Port : option QSerialPort;
  csvFile : QFile;
  csvRunning : bool;
  csvTimer : option nat;
  zeroTopLeft : Z;
  zeroTopRight : Z;
  zeroBotLeft : Z;
  buffer : string;
  timers : list QTimer;
  disk : gmap string (list CsvLine);
  picoWire : list ascii
}.

(** The state the constructor leaves. The range and value of the progress
    bar come from the form file; they are not read before a start sets
    them. *)
Definition initial : MainWindow :=
  {| ui := mkUi 0 0 0 0 0;
     _serialPort := None;
     Pico_Port := None;
     csvFile := mkQFile EmptyString false;
     csvRunning := false;
     csvTimer := None;
     zeroTopLeft := 0;
     zeroTopRight := 0;
     zeroBotLeft := 0;
     buffer := EmptyString;
     timers := [];
     disk := ∅;
     picoWire := [] |}.

(** *** Field updates *)

Definition set_ui (u : Ui) (w : MainWindow) : MainWindow :=
  mkMainWindow u (_serialPort w) (Pico_Port w) (csvFile w) (csvRunning w)
    (csvTimer w) (zeroTopLeft w) (zeroTopRight w) (zeroBotLeft w) (buffer w)
    (timers w) (disk w) (picoWire w).

Definition set_serialPort (p : option QSerialPort) (w : MainWindow) : MainWindow :=
  mkMainWindow (ui w) p (Pico_Port w) (csvFile w) (csvRunning w)
    (csvTimer w) (zeroTopLeft w) (zeroTopRight w) (zeroBotLeft w) (buffer w)
    (timers w) (disk w) (picoWire w).

Definition set_Pico_Port (p : option QSerialPort) (w : MainWindow) : MainWindow :=
  mkMainWindow (ui w) (_serialPort w) p (csvFile w) (csvRunning w)
    (csvTimer w) (zeroTopLeft w) (zeroTopRight w) (zeroBotLeft w) (buffer w)
    (timers w) (disk w) (picoWire w).

Definition set_csvFile (f : QFile) (w : MainWindow) : MainWindow :=
  mkMainWindow (ui w) (_serialPort w) (Pico_Port w) f (csvRunning w)
    (csvTimer w) (zeroTopLeft w) (zeroTopRight w) (zeroBotLeft w) (buffer w)
    (timers w) (disk w) (picoWire w).

Definition set_csvRunning (b : bool) (w : MainWindow) : MainWindow :=
  mkMainWindow (ui w) (_serialPort w) (Pico_Port w) (csvFile w) b
    (csvTimer w) (zeroTopLeft w) (zeroTopRight w) (zeroBotLeft w) (buffer w)
    (timers w) (disk w) (picoWire w).

Definition set_csvTimer (t : option nat) (w : MainWindow) : MainWindow :=
  mkMainWindow (ui w) (_serialPort w) (Pico_Port w) (csvFile w) (csvRunning w)
    t (zeroTopLeft w) (zeroTopRight w) (zeroBotLeft w) (buffer w)
    (timers w) (disk w) (picoWire w).

Definition set_zero (tl tr bl : Z) (w : MainWindow) : MainWindow :=
  mkMainWindow (ui w) (_serialPort w) (Pico_Port w) (csvFile w) (csvRunning w)
    (csvTimer w) tl tr bl (buffer w)
    (timers w) (disk w) (picoWire w).

Definition set_buffer (b : string) (w : MainWindow) : MainWindow :=
  mkMainWindow (ui w) (_serialPort w) (Pico_Port w) (csvFile w) (csvRunning w)
    (csvTimer w) (zeroTopLeft w) (zeroTopRight w) (zeroBotLeft w) b
    (timers w) (disk w) (picoWire w).

Definition set_timers (ts : list QTimer) (w : MainWindow) : MainWindow :=
  mkMainWindow (ui w) (_serialPort w) (Pico_Port w) (csvFile w) (csvRunning w)
    (csvTimer w) (zeroTopLeft w) (zeroTopRight w) (zeroBotLeft w) (buffer w)
    ts (disk w) (picoWire w).

Definition set_disk (d : gmap string (list CsvLine)) (w : MainWindow) : MainWindow :=
  mkMainWindow (ui w) (_serialPort w) (Pico_Port w) (csvFile w) (csvRunning w)
    (csvTimer w) (zeroTopLeft w) (zeroTopRight w) (zeroBotLeft w) (buffer w)
    (timers w) d (picoWire w).

Definition set_picoWire (bs : list ascii) (w : MainWindow) : MainWindow :=
  mkMainWindow (ui w) (_serialPort w) (Pico_Port w) (csvFile w) (csvRunning w)
    (csvTimer w) (zeroTopLeft w) (zeroTopRight w) (zeroBotLeft w) (buffer w)
    (timers w) (disk w) bs.

(** ** Qt objects: timers, the file, the text stream *)

Definition QTimer_stop (t : QTimer) : QTimer :=
  mkQTimer false (interval t) (totalFrames t) (framesCaptured t) (deleteLater t).

Definition QTimer_start (ms : Z) (t : QTimer) : QTimer :=
  mkQTimer true ms (totalFrames t) (framesCaptured t) (deleteLater t).

Definition QTimer_deleteLater (t : QTimer) : QTimer :=
  mkQTimer (isActive t) (interval t) (totalFrames t) (framesCaptured t) true.

(** [framesCaptured++] in the lambda: reached only below [totalFrames], so
    the increment cannot leave the range of [int]. *)
Definition QTimer_count (t : QTimer) : QTimer :=
  mkQTimer (isActive t) (interval t) (totalFrames t) (framesCaptured t + 1)
    (deleteLater t).

(** Apply [f] to the timer object at address [i]. *)
Definition onTimer (i : nat) (f : QTimer -> QTimer) (w : MainWindow) : MainWindow :=
  set_timers (alter f i (timers w)) w.

(** [csvFile.close()]. *)
Definition csvFile_close (w : MainWindow) : MainWindow :=
  set_csvFile (mkQFile (fileName (csvFile w)) false) w.

(** [csvFile.setFileName(name)]: called on a file that is open,
    [QFile::setFileName] logs a warning and closes it before it binds the
    new name (qfile.cpp). *)
Definition csvFile_setFileName (name : string) (w : MainWindow) : MainWindow :=
  let w1 := if isOpen (csvFile w) then csvFile_close w else w in
  set_csvFile (mkQFile name (isOpen (csvFile w1))) w1.

(** [csvFile.open(WriteOnly | Text)]: refused on a file that is open;
    otherwise the file system decides ([openOk]), and a successful open
    creates the file or truncates it. The result is the call's [bool]. *)
Definition csvFile_open (openOk : bool) (w : MainWindow) : bool * MainWindow :=
  if isOpen (csvFile w) then (false, w)
  else if openOk then
    (true,
     set_disk (<[fileName (csvFile w) := []]> (disk w))
       (set_csvFile (mkQFile (fileName (csvFile w)) true) w))
  else (false, w).

(** The lines of the file [csvFile] is bound to. *)
Definition csvLines (w : MainWindow) : list CsvLine :=
  default [] (disk w !! fileName (csvFile w)).

(** [csvStream << line]: the stream's device is [csvFile]; what is written
    reaches the file at the latest when the file is closed, so the model
    appends at once. Nothing is written to a closed device. *)
Definition csvStream_write (l : CsvLine) (w : MainWindow) : MainWindow :=
  if isOpen (csvFile w) then
    set_disk (<[fileName (csvFile w) := csvLines w ++ [l]]> (disk w)) w
  else w.

(** ** Helper functions of [MainWindow] *)

Definition display (bl tl tr : Z) (w : MainWindow) : MainWindow :=
  set_ui (mkUi bl tl tr (progressMaximum (ui w)) (progressValue (ui w))) w.

Definition resetValues (w : MainWindow) : MainWindow :=
  display 0 0 0 (set_zero 0 0 0 w).

Definition csvPath (desktop stamp : string) : string :=
  (desktop ++ "/sensor_data_" ++ stamp ++ ".csv")%string.

(** [startCsvRecording]: [desktop] is what [QStandardPaths] answers and
    [stamp] the formatted current time. *)
Definition startCsvRecording (desktop stamp : string) (openOk : bool)
    (w : MainWindow) : list Dialog * MainWindow :=
  let w1 := csvFile_setFileName (csvPath desktop stamp) w in
  let '(ok, w2) := csvFile_open openOk w1 in
  if negb ok then ([CsvCreateFailed], w2)
  else
    let w3 := csvStream_write (TextLine csvHeader) w2 in
    ([], set_csvRunning true w3).

Definition stopCsvRecording (w : MainWindow) : MainWindow :=
  let w1 := set_csvRunning false w in
  if isOpen (csvFile w1) then csvFile_close w1 else w1.

(** The row [writeCsvData] prints: [value()] of a display is a [double], so
    each sum with an offset is a [double] sum and does not wrap; it is a sum
    of two [int]s, below 2^32 in magnitude, hence exact in binary64. *)
Definition csvRow (now : string) (w : MainWindow) : CsvRow :=
  {| rowTimestamp := now;
     rowTopLeft := topLeftNum (ui w);
     rowTopRight := topRightNum (ui w);
     rowBotLeft := botLeftNum (ui w);
     rowTopLeftRaw := topLeftNum (ui w) + zeroTopLeft w;
     rowTopRightRaw := topRightNum (ui w) + zeroTopRight w;
     rowBotLeftRaw := botLeftNum (ui w) + zeroBotLeft w |}.

Definition writeCsvData (now : string) (w : MainWindow) : MainWindow :=
  if negb (csvRunning w) || negb (isOpen (csvFile w)) then w
  else csvStream_write (DataLine (csvRow now w)) w.

(** The decimal numeral of an integer. *)
Definition decimal (v : Z) : string := NilZero.string_of_int (Z.to_int v).

Fixpoint dropZeros (cs : list ascii) : list ascii :=
  match cs with
  | "0"%char :: cs' => dropZeros cs'
  | _ => cs
  end.

(** [csvStream << d] for a [double] [d] that is an integer, with the
    stream's defaults ([SmartNotation], precision 6, the C locale): the
    [%g] of [printf]. Below one million in magnitude this is the decimal
    numeral. From one million on it is the exponent form: [d] rounded to six
    significant digits (a tie upwards, as Qt's number printer does), the
    zeros at the end of the digits dropped, and the exponent written with a
    sign and at least two digits, as in [1.23457e+06]. *)
Definition QTextStream_double (v : Z) : string :=
  let a := Z.abs v in
  if a <? 1000000 then decimal v
  else
    let x := Z.of_nat (String.length (decimal a)) - 1 in
    let m := (a + 5 * 10 ^ (x - 6)) / 10 ^ (x - 5) in
    let '(m, x) := if m =? 1000000 then (100000, x + 1) else (m, x) in
    let tail := rev (dropZeros (rev (list_ascii_of_string (decimal (m mod 100000 + 100000))))) in
    let fraction :=
      match tail with
      | _ :: ((_ :: _) as ds) => String "."%char (string_of_list_ascii ds)
      | _ => EmptyString
      end in
    let sign := if v <? 0 then "-"%string else EmptyString in
    let pad := if x <? 10 then "0"%string else EmptyString in
    (sign ++ decimal (m / 100000) ++ fraction ++ "e+" ++ pad ++ decimal x)%string.

(** The text of a data line. *)
Definition rowText (r : CsvRow) : string :=
  (rowTimestamp r ++ "," ++
   QTextStream_double (rowTopLeft r) ++ "," ++
   QTextStream_double (rowTopRight r) ++ "," ++
   QTextStream_double (rowBotLeft r) ++ "," ++
   QTextStream_double (rowTopLeftRaw r) ++ "," ++
   QTextStream_double (rowTopRightRaw r) ++ "," ++
   QTextStream_double (rowBotLeftRaw r))%string.

Definition lineText (l : CsvLine) : string :=
  match l with
  | TextLine text => text
  | DataLine row => rowText row
  end.

(** ** Slots *)

Definition progressBar_setRange (lo hi : Z) (w : MainWindow) : MainWindow :=
  set_ui (mkUi (botLeftNum (ui w)) (topLeftNum (ui w)) (topRightNum (ui w))
            hi (progressValue (ui w))) w.

Definition progressBar_setValue (v : Z) (w : MainWindow) : MainWindow :=
  set_ui (mkUi (botLeftNum (ui w)) (topLeftNum (ui w)) (topRightNum (ui w))
            (progressMaximum (ui w)) v) w.

Definition picoIsOpen (w : MainWindow) : bool :=
  match Pico_Port w with
  | Some p => portIsOpen p
  | None => false
  end.

(** [if (Pico_Port && Pico_Port->isOpen()) Pico_Port->write("1")]. *)
Definition picoTrigger (w : MainWindow) : MainWindow :=
  if picoIsOpen w then set_picoWire (picoWire w ++ ["1"%char]) w else w.

(** The lambda connected to the [timeout] signal of the timer at address
    [self]. [csvTimer] inside the lambda is the member of the window, read
    when the lambda runs; the captured counters are those of [self]. *)
Definition timerLambda (self : nat) (now : string) (w : MainWindow) : MainWindow :=
  match timers w !! self with
  | None => w
  | Some t =>
      if totalFrames t <=? framesCaptured t then
        let w1 := match csvTimer w with
                  | Some j => onTimer j QTimer_stop w
                  | None => w
                  end in
        stopCsvRecording w1
      else
        let w1 := writeCsvData now w in
        let w2 := picoTrigger w1 in
        let w3 := onTimer self QTimer_count w2 in
        progressBar_setValue (framesCaptured t + 1) w3
  end.

(** The event loop delivers [timeout] only for a timer that is active. *)
Definition timeout (i : nat) (now : string) (w : MainWindow) : MainWindow :=
  match timers w !! i with
  | Some t => if isActive t then timerLambda i now w else w
  | None => w
  end.

(** The timer interval [on_btnStart_clicked] computes from the rate:
    [qMax(1, qRound(1000.0 / fps))]. *)
Definition intervalMs (fps : Q) : Z := qMax 1 (qRound (Double.div 1000 fps)).

Definition on_btnStart_clicked (fps duration : Q) (desktop stamp : string)
    (openOk : bool) (w : MainWindow) : list Dialog * MainWindow :=
  if Qle_bool fps 0 || Qle_bool duration 0 then ([InvalidInput], w)
  else
    let total := qRound (Double.mul fps duration) in
    let '(dialogs, w1) := startCsvRecording desktop stamp openOk w in
    let w2 := progressBar_setValue 0 (progressBar_setRange 0 total w1) in
    let w3 := match csvTimer w2 with
              | Some j => onTimer j QTimer_deleteLater (onTimer j QTimer_stop w2)
              | None => w2
              end in
    let fresh := length (timers w3) in
    let w4 := set_csvTimer (Some fresh)
                (set_timers (timers w3 ++ [mkQTimer false 0 total 0 false]) w3) in
    (dialogs, onTimer fresh (QTimer_start (intervalMs fps)) w4).

Definition on_btnStop_clicked (w : MainWindow) : MainWindow :=
  let w1 := match csvTimer w with
            | Some j => onTimer j QTimer_stop w
            | None => w
            end in
  stopCsvRecording w1.

Definition on_btnOpenPort_clicked (name : string) (openOk : bool)
    (w : MainWindow) : list Dialog * MainWindow :=
  let w1 := resetValues w in
  if openOk then ([PortOpened], set_serialPort (Some (mkQSerialPort name true)) w1)
  else ([PortOpenFailed], set_serialPort None w1).

Definition on_PicoButton_clicked (name : string) (openOk : bool)
    (w : MainWindow) : list Dialog * MainWindow :=
  if openOk then ([PicoOpened], set_Pico_Port (Some (mkQSerialPort name true)) w)
  else ([PicoOpenFailed], set_Pico_Port None w).

Definition on_btnClosPort_clicked (w : MainWindow) : MainWindow :=
  let w1 := match _serialPort w with
            | Some _ => resetValues (set_serialPort None w)
            | None => w
            end in
  match Pico_Port w1 with
  | Some _ => set_Pico_Port None w1
  | None => w1
  end.

(** [readData]: [bytes] is what [_serialPort->readAll()] returns. *)
Definition readData (bytes : string) (w : MainWindow) : MainWindow :=
  match _serialPort w with
  | None => w
  | Some port =>
      if negb (portIsOpen port) then w
      else
        let w1 := set_buffer (buffer w ++ bytes)%string w in
        let data := QString.trimmed (buffer w1) in
        let items := QString.split ","%char data in
        let w2 :=
          if (length items =? 3)%nat then
            match QString.toInt (nth 0 items EmptyString),
                  QString.toInt (nth 1 items EmptyString),
                  QString.toInt (nth 2 items EmptyString) with
            | Some botLeft, Some topLeft, Some topRight =>
                display (Int.wrap (botLeft - zeroBotLeft w1))
                        (Int.wrap (topLeft - zeroTopLeft w1))
                        (Int.wrap (topRight - zeroTopRight w1)) w1
            | _, _, _ => w1
            end
          else w1 in
        set_buffer EmptyString w2
  end.

(** [zero += display->value()]: the offset is converted to [double], the
    sum is a [double] sum, and the assignment converts it back to [int]. *)
Definition zeroed (zero shown : Z) : Z :=
  Int.of_double (Double.add (Double.of_int zero) (Double.of_int shown)).

Definition on_btnZero_clicked (w : MainWindow) : MainWindow :=
  let bl := zeroed (zeroBotLeft w) (botLeftNum (ui w)) in
  let tl := zeroed (zeroTopLeft w) (topLeftNum (ui w)) in
  let tr := zeroed (zeroTopRight w) (topRightNum (ui w)) in
  set_zero tl tr bl w.

(** ** The event loop *)

Inductive Event :=
| BtnStart (fps duration : Q) (desktop stamp : string) (openOk : bool)
| BtnStop
| BtnOpenPort (name : string) (openOk : bool)
| BtnClosPort
| PicoButton (name : string) (openOk : bool)
| BtnZero
| ReadyRead (bytes : string)
| TimerFired (timer : nat) (now : string).

Definition step (e : Event) (w : MainWindow) : list Dialog * MainWindow :=
  match e with
  | BtnStart fps duration desktop stamp openOk =>
      on_btnStart_clicked fps duration desktop stamp openOk w
  | BtnStop => ([], on_btnStop_clicked w)
  | BtnOpenPort name openOk => on_btnOpenPort_clicked name openOk w
  | BtnClosPort => ([], on_btnClosPort_clicked w)
  | PicoButton name openOk => on_PicoButton_clicked name openOk w
  | BtnZero => ([], on_btnZero_clicked w)
  | ReadyRead bytes => ([], readData bytes w)
  | TimerFired i now => ([], timeout i now w)
  end.

Fixpoint run (es : list Event) (w : MainWindow) : MainWindow :=
  match es with
  | [] => w
  | e :: es' => run es' (snd (step e w))
  end.

Inductive reachable : MainWindow -> Prop :=
| reachable_initial : reachable initial
| reachable_step e w : reachable w -> reachable (snd (step e w)).

(** ** Vocabulary of the statements *)

(** Nearest integer, a tie going away from zero: the rounding the capture
    rate and the frame budget are specified with. *)
Definition round_half_away_from_zero (x : Q) : Z :=
  Z.sgn (Qnum x) * Qfloor (Qabs x + (1 # 2)).

(** The timer heap once [on_btnStart_clicked] has stopped the timer
    [csvTimer] pointed to and scheduled it for deletion. *)
Definition retire (w : MainWindow) : list QTimer :=
  match csvTimer w with
  | Some j => alter QTimer_deleteLater j (alter QTimer_stop j (timers w))
  | None => timers w
  end.

(** [Idle]: no timer is armed and the CSV file is closed. *)
Definition Idle (w : MainWindow) : Prop :=
  (forall j t, timers w !! j = Some t -> isActive t = false) /\
  isOpen (csvFile w) = false.

(** A capture session in progress on timer [i]: [captured] of [total]
    frames taken, and the file holding the header and [rows]. *)
Record Session (i : nat) (total captured : Z) (rows : list CsvRow)
    (w : MainWindow) : Prop := mkSession {
  session_timer : csvTimer w = Some i;
  session_armed : exists ms dl,
      timers w !! i = Some (mkQTimer true ms total captured dl);
  session_running : csvRunning w = true;
  session_open : isOpen (csvFile w) = true;
  session_lines : csvLines w = TextLine csvHeader :: map DataLine rows
}.

(** What every reachable window satisfies: only the timer [csvTimer] points
    to can be armed, recording implies an armed timer, an open file implies
    recording, and [csvTimer] points into the heap. *)
Record WF (w : MainWindow) : Prop := mkWF {
  wf_active : forall j t,
      timers w !! j = Some t -> isActive t = true -> csvTimer w = Some j;
  wf_running : csvRunning w = true ->
      exists j t, csvTimer w = Some j /\ timers w !! j = Some t /\ isActive t = true;
  wf_open : isOpen (csvFile w) = true -> csvRunning w = true;
  wf_bound : forall j, csvTimer w = Some j -> (j < length (timers w))%nat
}.

(** The capture side of the window: what the zero, port and frame slots
    never touch. *)
Definition capture (w : MainWindow) :=
  (timers w, csvTimer w, csvRunning w, csvFile w, disk w).

Definition displayed (w : MainWindow) : Z * Z * Z :=
  (botLeftNum (ui w), topLeftNum (ui w), topRightNum (ui w)).

Definition offsets (w : MainWindow) : Z * Z * Z :=
  (zeroBotLeft w, zeroTopLeft w, zeroTopRight w).

(** The triple [readData] extracts from the buffered text, in wire order
    (bottom left, top left, top right), if it extracts one. *)
Definition parseFrame (data : string) : option (Z * Z * Z) :=
  let items := QString.split ","%char (QString.trimmed data) in
  if (length items =? 3)%nat then
    match QString.toInt (nth 0 items EmptyString),
          QString.toInt (nth 1 items EmptyString),
          QString.toInt (nth 2 items EmptyString) with
    | Some botLeft, Some topLeft, Some topRight => Some (botLeft, topLeft, topRight)
    | _, _, _ => None
    end
  else None.

Definition noComma (s : string) : Prop :=
  ~ In ","%char (list_ascii_of_string s).

(** A frame resolves to three integers when its trimmed text is three
    comma-free fields joined by two commas and each field reads as an
    [int]. *)
Definition resolvesToThreeIntegers (frame : string) : Prop :=
  exists sa sb sc,
    QString.trimmed frame = (sa ++ "," ++ sb ++ "," ++ sc)%string /\
    noComma sa /\ noComma sb /\ noComma sc /\
    is_Some (QString.toInt sa) /\ is_Some (QString.toInt sb) /\
    is_Some (QString.toInt sc).

Fixpoint join (sep : ascii) (pieces : list string) : string :=
  match pieces with
  | [] => EmptyString
  | [piece] => piece
  | piece :: rest => (piece ++ String sep (join sep rest))%string
  end.

(** Events that leave a capture session to itself: anything but the Start
    and Stop buttons. *)
Definition keepsSession (e : Event) : bool :=
  match e with
  | BtnStart _ _ _ _ _ | BtnStop => false
  | _ => true
  end.

(** The row a firing of timer [i] samples from the window it finds. *)
Definition sampleAt (i : nat) (e : Event) (w : MainWindow) : list CsvRow :=
  match e with
  | TimerFired j now => if (j =? i)%nat then [csvRow now w] else []
  | _ => []
  end.

(** The rows the firings of timer [i] sample along a run of events. *)
Fixpoint sampled (i : nat) (es : list Event) (w : MainWindow) : list CsvRow :=
  match es with
  | [] => []
  | e :: es' => sampleAt i e w ++ sampled i es' (snd (step e w))
  end.

(** How often timer [i] fires in a run of events. *)
Fixpoint tickCount (i : nat) (es : list Event) : nat :=
  match es with
  | [] => 0
  | TimerFired j _ :: es' => (if (j =? i)%nat then 1 else 0) + tickCount i es'
  | _ :: es' => tickCount i es'
  end.

(** Events that are neither a frame that resolves nor a change of the sensor
    link (opening or closing the port resets displays and offsets
    together). *)
Definition quietEvent (e : Event) (w : MainWindow) : Prop :=
  match e with
  | ReadyRead bytes => ~ resolvesToThreeIntegers (buffer w ++ bytes)
  | BtnOpenPort _ _ | BtnClosPort => False
  | _ => True
  end.

Fixpoint quietRun (es : list Event) (w : MainWindow) : Prop :=
  match es with
  | [] => True
  | e :: es' => quietEvent e w /\ quietRun es' (snd (step e w))
  end.

(** ** The rest of the window: key filter, port lists, destructor *)

(** The objects [eventFilter] can be asked about: the two spin boxes it is
    installed on, and anything else. *)
Inductive Watched :=
| framesPerSecond
| captureLengthSeconds
| otherObject.

(** [QKeyEvent]: the key code and the modifier flags. *)
Record QKeyEvent := mkQKeyEvent {
  key : Z;
  modifiers : Z
}.

(** [QEvent]: a key press, with its [QKeyEvent], or any other event. *)
Inductive QEvent :=
| KeyPress (keyEvent : QKeyEvent)
| OtherEvent.

(** [Qt::Key_0], [Qt::Key_8], [Qt::Key_9] and [Qt::ControlModifier]
    (0x30, 0x38, 0x39 and 0x04000000). *)
Definition Key_0 : Z := 48.
Definition Key_8 : Z := 56.
Definition Key_9 : Z := 57.
Definition ControlModifier : Z := 67108864.

(** [eventFilter]: [true] blocks the event; everything else goes to
    [QMainWindow::eventFilter], which filters nothing. *)
Definition eventFilter (watched : Watched) (event : QEvent) : bool :=
  match watched, event with
  | (framesPerSecond | captureLengthSeconds), KeyPress keyEvent =>
      if ((key keyEvent =? Key_8) || (key keyEvent =? Key_9) ||
          (key keyEvent =? Key_0)) &&
         negb (Z.land (modifiers keyEvent) ControlModifier =? 0)
      then true
      else false
  | _, _ => false
  end.

(** The two combo boxes of port names. *)
Record PortLists := mkPortLists {
  HC06Ports : list string;
  PicoPorts : list string
}.

(** [foreach (port, ports) combo->addItem(port.portName())]. *)
Definition addItems (ports : list string) (items : list string) : list string :=
  fold_left (fun acc port => acc ++ [port]) ports items.

(** [on_btnRefreshPorts_clicked]: [availableHC] and [availablePico] are what
    the two calls of [QSerialPortInfo::availablePorts()] answer. *)
Definition on_btnRefreshPorts_clicked (availableHC availablePico : list string)
    (w : MainWindow) (lists : PortLists) : PortLists :=
  let lists1 :=
    match _serialPort w with
    | None => mkPortLists (addItems availableHC []) (PicoPorts lists)
    | Some _ => lists
    end in
  match Pico_Port w with
  | None => mkPortLists (HC06Ports lists1) (addItems availablePico [])
  | Some _ => lists1
  end.

(** The body of [~MainWindow]: the recording is stopped and both ports are
    closed and deleted. (The timers are children of the window and go with
    it afterwards.) *)
Definition MainWindow_destructor (w : MainWindow) : MainWindow :=
  let w1 := stopCsvRecording w in
  let w2 := match _serialPort w1 with
            | Some _ => set_serialPort None w1
            | None => w1
            end in
  match Pico_Port w2 with
  | Some _ => set_Pico_Port None w2
  | None => w2
  end.

(** ** More vocabulary *)

(** How many times [c] occurs in [s]. *)
Fixpoint countChar (c : ascii) (s : string) : nat :=
  match s with
  | EmptyString => 0
  | String c' s' => (if Ascii.eqb c' c then 1 else 0) + countChar c s'
  end.

(** The three "w/o Zero" columns of a row, and the text printed for
    them. *)
Definition rawColumns (r : CsvRow) : Z * Z * Z :=
  (rowTopLeftRaw r, rowTopRightRaw r, rowBotLeftRaw r).

Definition rawText (r : CsvRow) : string * string * string :=
  (QTextStream_double (rowTopLeftRaw r), QTextStream_double (rowTopRightRaw r),
   QTextStream_double (rowBotLeftRaw r)).

(** Events that leave the Pico link as it is. *)
Definition keepsPico (e : Event) : bool :=
  match e with
  | PicoButton _ _ | BtnClosPort => false
  | _ => true
  end.

(** Events that do not press Zero. *)
Definition notZero (e : Event) : bool :=
  match e with
  | BtnZero => false
  | _ => true
  end.

(** Events that cannot open the CSV file: anything but a start whose file
    can be opened. *)
Definition opensNoFile (e : Event) : bool :=
  match e with
  | BtnStart _ _ _ _ true => false
  | _ => true
  end.

(** Every timer but the one [csvTimer] points to is scheduled for
    deletion, and that one is not. *)
Definition Tidy (w : MainWindow) : Prop :=
  forall j t, timers w !! j = Some t ->
    (deleteLater t = true <-> csvTimer w <> Some j).

(** Events other than a press of the Pico button. *)
Definition notPicoButton (e : Event) : bool :=
  match e with
  | PicoButton _ _ => false
  | _ => true
  end.

Ltac fields :=
  cbn [ui _serialPort Pico_Port csvFile csvRunning csvTimer zeroTopLeft
       zeroTopRight zeroBotLeft buffer timers disk picoWire
       set_ui set_serialPort set_Pico_Port set_csvFile set_csvRunning
       set_csvTimer set_zero set_buffer set_timers set_disk set_picoWire
       fileName isOpen botLeftNum topLeftNum topRightNum progressMaximum
       progressValue isActive interval totalFrames framesCaptured deleteLater
       fst snd negb orb andb] in *.

(** * Lemmas *)

(** ** Rationals and powers of two *)

Section BinaryRounding.

Local Open Scope Q_scope.

Lemma Qle_bool_pos_false (q : Q) : 0 < q -> Qle_bool q 0 = false.
Proof.
  intros Hq. destruct (Qle_bool q 0) eqn:E; [| reflexivity].
  apply Qle_bool_iff in E. exfalso. exact (Qlt_not_le _ _ Hq E).
Qed.

Lemma Qdiv_pos (a b : Q) : 0 < a -> 0 < b -> 0 < a / b.
Proof.
  intros Ha Hb. unfold Qdiv.
  apply Qmult_lt_0_compat; [assumption | apply Qinv_lt_0_compat; assumption].
Qed.

Lemma Qfloor_unique (z : Z) (x : Q) :
  inject_Z z <= x -> x < inject_Z (z + 1) -> Qfloor x = z.
Proof.
  intros H1 H2. pose proof (Qfloor_le x) as H3. pose proof (Qlt_floor x) as H4.
  assert (A : inject_Z z < inject_Z (Qfloor x + 1)) by lra.
  assert (B : inject_Z (Qfloor x) < inject_Z (z + 1)) by lra.
  rewrite <- Zlt_Qlt in A, B. lia.
Qed.

Lemma pow2_pos (k : Z) : 0 < 2 ^ k.
Proof. apply Qpower_0_lt. reflexivity. Qed.

Lemma pow2_le (a b : Z) : (a <= b)%Z -> 2 ^ a <= 2 ^ b.
Proof. intros H. apply Qpower_le_compat_l; [exact H | discriminate]. Qed.

Lemma pow2_lt_inv (a b : Z) : 2 ^ a < 2 ^ b -> (a < b)%Z.
Proof.
  intros H. destruct (Z_lt_le_dec a b) as [? | Hge]; [assumption |].
  pose proof (pow2_le b a Hge). lra.
Qed.

Lemma pow2_add (a b : Z) : 2 ^ (a + b) == 2 ^ a * 2 ^ b.
Proof. apply Qpower_plus. discriminate. Qed.

Lemma pow2_succ (a : Z) : 2 ^ (a + 1) == 2 * 2 ^ a.
Proof. rewrite pow2_add. change (2 ^ 1) with 2. ring. Qed.

Lemma pow2_Z (n : Z) : (0 <= n)%Z -> inject_Z (2 ^ n) == 2 ^ n.
Proof. intros H. exact (Zpower_Qpower 2 n H). Qed.

(** ** The binade of a positive rational *)

Lemma ilog2_spec (x : Q) :
  0 < x -> 2 ^ Double.ilog2 x <= x /\ x < 2 ^ (Double.ilog2 x + 1).
Proof.
  intros Hx. destruct x as [n d]. unfold Double.ilog2. cbn [Qnum Qden].
  assert (Hn : (0 < n)%Z) by (unfold Qlt in Hx; cbn in Hx; lia).
  pose proof (Z.log2_spec n Hn) as [Hn1 Hn2].
  pose proof (Z.log2_spec (Z.pos d) ltac:(lia)) as [Hd1 Hd2].
  pose proof (Z.log2_nonneg n) as Ln. pose proof (Z.log2_nonneg (Z.pos d)) as Ld.
  set (ln := Z.log2 n) in *. set (ld := Z.log2 (Z.pos d)) in *.
  rewrite <- Z.add_1_r in Hn2, Hd2.
  rewrite Zle_Qle in Hn1, Hd1. rewrite Zlt_Qlt in Hn2, Hd2.
  rewrite pow2_Z in Hn1, Hd1, Hn2, Hd2 by lia.
  rewrite pow2_succ in Hn2, Hd2.
  set (x := n # d) in *.
  assert (Hdp : 0 < inject_Z (Z.pos d)).
  { change 0 with (inject_Z 0). rewrite <- Zlt_Qlt. lia. }
  assert (Ex : x * inject_Z (Z.pos d) == inject_Z n).
  { subst x. rewrite Qmake_Qdiv. field. intros H. lra. }
  pose proof (pow2_pos ln) as Pn. pose proof (pow2_pos ld) as Pd.
  pose proof (pow2_pos (ln - ld)) as Pk.
  assert (Ek : 2 ^ (ln - ld) * 2 ^ ld == 2 ^ ln).
  { rewrite <- pow2_add. replace (ln - ld + ld)%Z with ln by lia. reflexivity. }
  destruct (Qle_bool (2 ^ (ln - ld)) x) eqn:Eb.
  - apply Qle_bool_iff in Eb. split; [exact Eb |].
    rewrite pow2_succ.
    set (A := 2 ^ ln) in *. set (B := 2 ^ ld) in *. set (K := 2 ^ (ln - ld)) in *.
    set (D := inject_Z (Z.pos d)) in *. set (N := inject_Z n) in *.
    nra.
  - assert (Hlt : x < 2 ^ (ln - ld)).
    { destruct (Qlt_le_dec x (2 ^ (ln - ld))) as [? | Hle]; [assumption |].
      apply Qle_bool_iff in Hle. congruence. }
    replace (ln - ld - 1 + 1)%Z with (ln - ld)%Z by lia.
    split; [| exact Hlt].
    assert (Ek1 : 2 * 2 ^ (ln - ld - 1) == 2 ^ (ln - ld)).
    { rewrite <- pow2_succ. replace (ln - ld - 1 + 1)%Z with (ln - ld)%Z by lia.
      reflexivity. }
    pose proof (pow2_pos (ln - ld - 1)) as Pk1.
    set (A := 2 ^ ln) in *. set (B := 2 ^ ld) in *. set (K := 2 ^ (ln - ld)) in *.
    set (K1 := 2 ^ (ln - ld - 1)) in *.
    set (D := inject_Z (Z.pos d)) in *. set (N := inject_Z n) in *.
    nra.
Qed.

(** ** Rounding to the nearest integer, ties to even *)

Lemma rne_cases (q : Q) :
  let f := Qfloor q in
  (q - inject_Z f < 1 # 2 /\ Double.rne q = f) \/
  (1 # 2 < q - inject_Z f /\ Double.rne q = (f + 1)%Z) \/
  (q - inject_Z f == 1 # 2 /\ Double.rne q = if Z.even f then f else (f + 1)%Z).
Proof.
  cbv zeta. unfold Double.rne.
  destruct (Qcompare_spec (q - inject_Z (Qfloor q)) (1 # 2)) as [H | H | H]; auto.
Qed.

Lemma rne_bounds (q : Q) :
  (Qfloor q <= Double.rne q <= Qfloor q + 1)%Z.
Proof.
  destruct (rne_cases q) as [[_ ->] | [[_ ->] | [_ ->]]]; try lia.
  destruct (Z.even (Qfloor q)); lia.
Qed.

Lemma rne_error (q : Q) :
  q - (1 # 2) <= inject_Z (Double.rne q) /\ inject_Z (Double.rne q) <= q + (1 # 2).
Proof.
  pose proof (Qfloor_le q) as H1. pose proof (Qlt_floor q) as H2.
  rewrite inject_Z_plus in H2. change (inject_Z 1) with 1 in H2.
  destruct (rne_cases q) as [[H ->] | [[H ->] | [H ->]]].
  - lra.
  - rewrite inject_Z_plus. change (inject_Z 1) with 1. lra.
  - destruct (Z.even (Qfloor q)); rewrite ?inject_Z_plus; change (inject_Z 1) with 1; lra.
Qed.

Lemma rne_Z (k : Z) : Double.rne (inject_Z k) = k.
Proof.
  destruct (rne_cases (inject_Z k)) as [[H ->] | [[H E] | [H E]]];
    rewrite Qfloor_Z in *; try reflexivity; lra.
Qed.

Lemma rne_comp (p q : Q) : p == q -> Double.rne p = Double.rne q.
Proof.
  intros E. unfold Double.rne. rewrite (Qfloor_comp p q E).
  assert (E' : p - inject_Z (Qfloor q) == q - inject_Z (Qfloor q)) by (rewrite E; reflexivity).
  rewrite (Qcompare_comp _ _ E' (1 # 2) (1 # 2) (Qeq_refl _)). reflexivity.
Qed.

Lemma rne_monotone (p q : Q) : p <= q -> (Double.rne p <= Double.rne q)%Z.
Proof.
  intros Hpq. pose proof (Qfloor_resp_le p q Hpq) as Hf.
  pose proof (rne_bounds p) as Bp. pose proof (rne_bounds q) as Bq.
  destruct (Z.eq_dec (Qfloor p) (Qfloor q)) as [E | Hne]; [| lia].
  destruct (rne_cases p) as [[Hp Ep] | [[Hp Ep] | [Hp Ep]]];
    destruct (rne_cases q) as [[Hq Eq] | [[Hq Eq] | [Hq Eq]]];
    rewrite Ep, Eq; rewrite ?E in *; try lia; try lra.
  all: destruct (Z.even (Qfloor q)); lia.
Qed.

(** ** Rounding to binary64 *)

Lemma fl_pos (x : Q) :
  0 < x ->
  Double.fl x = inject_Z (Double.rne (x / 2 ^ (Double.ilog2 x - 52))) *
                2 ^ (Double.ilog2 x - 52).
Proof.
  intros Hx. destruct x as [[| n | n] d]; try (unfold Qlt in Hx; cbn in Hx; lia).
  reflexivity.
Qed.

Lemma fl_0 (x : Q) : x == 0 -> Double.fl x = 0.
Proof.
  destruct x as [[| n | n] d]; intros H; try reflexivity;
    unfold Qeq in H; cbn in H; lia.
Qed.

Lemma fl_neg (x : Q) : x < 0 -> Double.fl x = - Double.fl (- x).
Proof.
  intros Hx. destruct x as [[| n | n] d]; try (unfold Qlt in Hx; cbn in Hx; lia).
  reflexivity.
Qed.

Lemma scaled_bounds (x : Q) :
  0 < x ->
  2 ^ 52 <= x / 2 ^ (Double.ilog2 x - 52) /\
  x / 2 ^ (Double.ilog2 x - 52) < 2 ^ 53.
Proof.
  intros Hx. destruct (ilog2_spec x Hx) as [H1 H2].
  set (e := Double.ilog2 x) in *.
  pose proof (pow2_pos (e - 52)) as Hu.
  assert (E1 : 2 ^ e == 2 ^ 52 * 2 ^ (e - 52)).
  { rewrite <- pow2_add. replace (52 + (e - 52))%Z with e by lia. reflexivity. }
  assert (E2 : 2 ^ (e + 1) == 2 ^ 53 * 2 ^ (e - 52)).
  { rewrite <- pow2_add. replace (53 + (e - 52))%Z with (e + 1)%Z by lia. reflexivity. }
  set (u := 2 ^ (e - 52)) in *.
  split.
  - apply Qle_shift_div_l; [exact Hu |]. lra.
  - apply Qlt_shift_div_r; [exact Hu |]. lra.
Qed.

(** The rounded value stays in the binade of [x], its upper end included. *)
Lemma fl_bounds (x : Q) :
  0 < x ->
  2 ^ Double.ilog2 x <= Double.fl x /\ Double.fl x <= 2 ^ (Double.ilog2 x + 1).
Proof.
  intros Hx. rewrite (fl_pos x Hx). destruct (scaled_bounds x Hx) as [H1 H2].
  set (e := Double.ilog2 x) in *. set (u := 2 ^ (e - 52)) in *.
  pose proof (pow2_pos (e - 52)) as Hu. fold u in Hu.
  assert (E1 : 2 ^ e == 2 ^ 52 * u).
  { unfold u. rewrite <- pow2_add. replace (52 + (e - 52))%Z with e by lia. reflexivity. }
  assert (E2 : 2 ^ (e + 1) == 2 ^ 53 * u).
  { unfold u. rewrite <- pow2_add. replace (53 + (e - 52))%Z with (e + 1)%Z by lia.
    reflexivity. }
  assert (M1 : (2 ^ 52 <= Double.rne (x / u))%Z).
  { rewrite <- (rne_Z (2 ^ 52)). apply rne_monotone.
    rewrite pow2_Z by lia. exact H1. }
  assert (M2 : (Double.rne (x / u) <= 2 ^ 53)%Z).
  { rewrite <- (rne_Z (2 ^ 53)). apply rne_monotone.
    rewrite pow2_Z by lia. lra. }
  rewrite Zle_Qle in M1, M2. rewrite pow2_Z in M1, M2 by lia.
  set (m := inject_Z (Double.rne (x / u))) in *.
  rewrite E1, E2. split; nra.
Qed.

(** The relative error of one rounding is at most [2^-53]. *)
Lemma fl_error (x : Q) :
  0 < x ->
  x - x * (1 # 2 ^ 53) <= Double.fl x /\ Double.fl x <= x + x * (1 # 2 ^ 53).
Proof.
  intros Hx. rewrite (fl_pos x Hx). destruct (ilog2_spec x Hx) as [H1 _].
  set (e := Double.ilog2 x) in *. set (u := 2 ^ (e - 52)) in *.
  pose proof (pow2_pos (e - 52)) as Hu. fold u in Hu.
  assert (E1 : 2 ^ e == 2 ^ 52 * u).
  { unfold u. rewrite <- pow2_add. replace (52 + (e - 52))%Z with e by lia. reflexivity. }
  destruct (rne_error (x / u)) as [R1 R2].
  set (m := inject_Z (Double.rne (x / u))) in *.
  assert (Exu : x / u * u == x) by (field; lra).
  set (s := x / u) in *.
  assert (P52 : 2 ^ 52 == 4503599627370496) by reflexivity.
  assert (P53 : (1 # 2 ^ 53) == (1 # 9007199254740992)) by reflexivity.
  rewrite P53. rewrite P52 in E1.
  assert (A1 : 0 <= (m - s + (1 # 2)) * u) by (apply Qmult_le_0_compat; lra).
  assert (A2 : 0 <= (s + (1 # 2) - m) * u) by (apply Qmult_le_0_compat; lra).
  set (pe := 2 ^ e) in *. clearbody s m u pe. clear P52 P53.
  split; nra.
Qed.

Lemma fl_nonneg (x : Q) : 0 <= x -> 0 <= Double.fl x.
Proof.
  intros Hx. destruct (Qlt_le_dec 0 x) as [Hp | Hz].
  - destruct (fl_bounds x Hp) as [H _]. pose proof (pow2_pos (Double.ilog2 x)). lra.
  - rewrite fl_0 by lra. lra.
Qed.

Lemma fl_monotone (x y : Q) : 0 <= x -> x <= y -> Double.fl x <= Double.fl y.
Proof.
  intros Hx Hxy. destruct (Qlt_le_dec 0 x) as [Hp | Hz].
  - assert (Hy : 0 < y) by lra.
    destruct (ilog2_spec x Hp) as [X1 X2]. destruct (ilog2_spec y Hy) as [Y1 Y2].
    destruct (fl_bounds x Hp) as [_ BX]. destruct (fl_bounds y Hy) as [BY _].
    assert (Hle : (Double.ilog2 x <= Double.ilog2 y)%Z).
    { assert (A : 2 ^ Double.ilog2 x < 2 ^ (Double.ilog2 y + 1)) by lra.
      apply pow2_lt_inv in A. lia. }
    destruct (Z.eq_dec (Double.ilog2 x) (Double.ilog2 y)) as [E | Hne].
    + rewrite (fl_pos x Hp), (fl_pos y Hy), E.
      pose proof (pow2_pos (Double.ilog2 y - 52)) as Hu.
      set (u := 2 ^ (Double.ilog2 y - 52)) in *.
      assert (M : (Double.rne (x / u) <= Double.rne (y / u))%Z).
      { apply rne_monotone. apply Qmult_le_compat_r; [exact Hxy |].
        apply Qinv_le_0_compat. lra. }
      rewrite Zle_Qle in M. nra.
    + pose proof (pow2_le (Double.ilog2 x + 1) (Double.ilog2 y) ltac:(lia)). lra.
  - rewrite (fl_0 x) by lra. apply fl_nonneg. lra.
Qed.

(** A value with at most 53 significant bits is left as it is. *)
Lemma fl_exact (x : Q) (k j : Z) :
  (0 < k < 2 ^ 53)%Z -> x == inject_Z k * 2 ^ j -> Double.fl x == x.
Proof.
  intros Hk Ex.
  pose proof (pow2_pos j) as Pj.
  assert (Ik : 0 < inject_Z k < 2 ^ 53).
  { destruct Hk as [K1 K2]. rewrite Zlt_Qlt in K1, K2. rewrite pow2_Z in K2 by lia.
    change (inject_Z 0) with 0 in K1. lra. }
  assert (Hx : 0 < x) by nra.
  rewrite (fl_pos x Hx). destruct (ilog2_spec x Hx) as [H1 _].
  set (e := Double.ilog2 x) in *.
  assert (Hj : (e - 52 <= j)%Z).
  { assert (A : 2 ^ e < 2 ^ (53 + j)).
    { rewrite pow2_add. nra. }
    apply pow2_lt_inv in A. lia. }
  pose proof (pow2_pos (e - 52)) as Hu.
  assert (Ej : 2 ^ j == inject_Z (2 ^ (j - (e - 52))) * 2 ^ (e - 52)).
  { rewrite pow2_Z by lia. rewrite <- pow2_add.
    replace (j - (e - 52) + (e - 52))%Z with j by lia. reflexivity. }
  assert (Es : x / 2 ^ (e - 52) == inject_Z (k * 2 ^ (j - (e - 52)))).
  { rewrite inject_Z_mult, Ex, Ej. field. lra. }
  rewrite (rne_comp _ _ Es), rne_Z. rewrite inject_Z_mult, Ex, Ej. ring.
Qed.

Lemma fl_Z (k : Z) :
  (- 2 ^ 53 < k < 2 ^ 53)%Z -> Double.fl (inject_Z k) == inject_Z k.
Proof.
  intros Hk. destruct (Z.lt_trichotomy k 0) as [Hn | [-> | Hp]].
  - rewrite fl_neg by (change 0 with (inject_Z 0); rewrite <- Zlt_Qlt; exact Hn).
    rewrite <- inject_Z_opp.
    rewrite (fl_exact (inject_Z (- k)) (- k) 0); [| lia | change (2 ^ 0) with 1; ring].
    rewrite inject_Z_opp. ring.
  - reflexivity.
  - apply (fl_exact _ k 0); [lia |]. change (2 ^ 0) with 1. ring.
Qed.

Lemma fl_half (k : Z) :
  (0 < k < 2 ^ 53)%Z -> Double.fl (inject_Z k * (1 # 2)) == inject_Z k * (1 # 2).
Proof.
  intros Hk. apply (fl_exact _ k (-1)); [lia |]. reflexivity.
Qed.

(** ** Conversion to [int] *)

Lemma of_double_comp (x y : Q) : x == y -> Int.of_double x = Int.of_double y.
Proof.
  intros E. unfold Int.of_double, Int.truncate.
  assert (Eb : Qle_bool 0 x = Qle_bool 0 y).
  { destruct (Qle_bool 0 x) eqn:Ex, (Qle_bool 0 y) eqn:Ey; try reflexivity.
    - apply Qle_bool_iff in Ex. rewrite E in Ex. apply Qle_bool_iff in Ex. congruence.
    - apply Qle_bool_iff in Ey. rewrite <- E in Ey. apply Qle_bool_iff in Ey. congruence. }
  rewrite Eb, (Qfloor_comp x y E), (Qceiling_comp x y E). reflexivity.
Qed.

Lemma of_double_Z (k : Z) : Int.in_range k = true -> Int.of_double (inject_Z k) = k.
Proof.
  intros Hk. unfold Int.of_double, Int.truncate.
  rewrite Qfloor_Z, Qceiling_Z. destruct (Qle_bool 0 (inject_Z k)); by rewrite Hk.
Qed.


Lemma in_range_bounds (k : Z) :
  Int.in_range k = true <-> (Int.min_int <= k <= Int.max_int)%Z.
Proof.
  unfold Int.in_range. rewrite andb_true_iff, !Z.leb_le. reflexivity.
Qed.

(** The sum of an offset and a displayed value that is an [int]. *)
Lemma zeroed_in_range (zero shown : Z) :
  (Int.min_int <= zero + shown <= Int.max_int)%Z -> zeroed zero shown = (zero + shown)%Z.
Proof.
  intros H. unfold zeroed, Double.add, Double.of_int.
  assert (E : Double.fl (inject_Z zero + inject_Z shown) == inject_Z (zero + shown)).
  { rewrite <- inject_Z_plus. apply fl_Z.
    unfold Int.min_int, Int.max_int in H. lia. }
  rewrite (of_double_comp _ _ E). apply of_double_Z. by apply in_range_bounds.
Qed.

Lemma of_double_floor (d : Q) (hi : Z) :
  0 <= d -> d < inject_Z (hi + 1) -> (hi <= Int.max_int)%Z ->
  Int.of_double d = Qfloor d /\ (0 <= Qfloor d <= hi)%Z.
Proof.
  intros H0 H1 Hhi. unfold Int.of_double, Int.truncate.
  assert (Hb : Qle_bool 0 d = true) by (apply Qle_bool_iff; exact H0). rewrite Hb.
  assert (Hlo : (0 <= Qfloor d)%Z).
  { change 0%Z with (Qfloor 0). apply Qfloor_resp_le; assumption. }
  assert (Hup : (Qfloor d <= hi)%Z).
  { pose proof (Qfloor_le d) as Hf.
    assert (A : inject_Z (Qfloor d) < inject_Z (hi + 1)) by lra.
    rewrite <- Zlt_Qlt in A. lia. }
  unfold Int.in_range, Int.min_int, Int.max_int in *.
  destruct (Z.leb_spec (- 2 ^ 31) (Qfloor d)), (Z.leb_spec (Qfloor d) (2 ^ 31 - 1));
    cbn [andb]; lia.
Qed.

(** ** [qRound] of a rounded product or quotient

    In what follows [x] is the exact product [fps * duration] or the exact
    quotient [1000 / fps], so that [qRound (Double.fl x)] is what the start
    slot computes. *)

Lemma round_half_away_pos (x : Q) :
  0 < x -> round_half_away_from_zero x = Qfloor (x + (1 # 2)).
Proof.
  intros Hx. unfold round_half_away_from_zero.
  destruct x as [n d]. unfold Qlt in Hx. cbn in Hx.
  cbn [Qnum]. rewrite Z.sgn_pos by lia. unfold Qabs. rewrite Z.abs_eq by lia. lia.
Qed.

(** Up to [INT_MAX] the conversion is a defined one: the result is the
    floor of the rounded sum. *)
Lemma qRound_fl (x : Q) :
  0 < x -> x <= 2147483647 ->
  qRound (Double.fl x) = Qfloor (Double.fl (Double.fl x + (1 # 2))) /\
  (0 <= qRound (Double.fl x) <= 2147483647)%Z.
Proof.
  intros H0 H1.
  pose proof (fl_nonneg x ltac:(lra)) as Hp.
  assert (Hpu : Double.fl x <= 2147483647).
  { rewrite <- (fl_Z 2147483647) by lia.
    apply fl_monotone; [lra | exact H1]. }
  assert (Hs0 : 0 <= Double.fl (Double.fl x + (1 # 2))).
  { apply fl_nonneg. lra. }
  assert (Hsu : Double.fl (Double.fl x + (1 # 2)) <= 2147483647 + (1 # 2)).
  { assert (E : 2147483647 + (1 # 2) == inject_Z 4294967295 * (1 # 2)) by reflexivity.
    rewrite E. rewrite <- (fl_half 4294967295) by lia.
    apply fl_monotone; [lra |]. rewrite <- E. lra. }
  unfold qRound, Double.add.
  assert (Hb : Qle_bool 0 (Double.fl x) = true) by (apply Qle_bool_iff; exact Hp).
  rewrite Hb.
  destruct (of_double_floor (Double.fl (Double.fl x + (1 # 2))) 2147483647 Hs0)
    as [-> Hr].
  - change (inject_Z (2147483647 + 1)) with 2147483648. lra.
  - unfold Int.max_int. lia.
  - split; [reflexivity | exact Hr].
Qed.

(** It is never below the nearest integer, a tie going upwards. *)
Lemma qRound_fl_lower (x : Q) :
  0 < x -> x <= 2147483647 ->
  (round_half_away_from_zero x <= qRound (Double.fl x))%Z.
Proof.
  intros H0 H1. rewrite (round_half_away_pos x H0).
  destruct (qRound_fl x H0 H1) as [E [Hlo _]].
  set (n := Qfloor (x + (1 # 2))).
  destruct (Z_le_gt_dec n 0) as [Hn | Hn]; [lia |].
  pose proof (Qfloor_le (x + (1 # 2))) as Hf. fold n in Hf.
  assert (Hnu : (n <= 2147483647)%Z).
  { unfold n. change 2147483647%Z with (Qfloor (2147483647 + (1 # 2))).
    apply Qfloor_resp_le. lra. }
  assert (In : 1 <= inject_Z n).
  { change 1 with (inject_Z 1). rewrite <- Zle_Qle. lia. }
  assert (Eh : inject_Z n - (1 # 2) == inject_Z (2 * n - 1) * (1 # 2)).
  { replace (2 * n - 1)%Z with (2 * n + - (1))%Z by lia.
    rewrite inject_Z_plus, inject_Z_mult. change (inject_Z 2) with 2.
    change (inject_Z (- (1))) with (- (1)). ring. }
  assert (P1 : inject_Z n - (1 # 2) <= Double.fl x).
  { rewrite Eh. rewrite <- (fl_half (2 * n - 1)) by lia.
    apply fl_monotone; [| rewrite <- Eh; lra].
    rewrite <- Eh. lra. }
  assert (P2 : inject_Z n <= Double.fl (Double.fl x + (1 # 2))).
  { rewrite <- (fl_Z n) by lia. apply fl_monotone; lra. }
  rewrite E. rewrite <- (Qfloor_Z n) at 1. apply Qfloor_resp_le; assumption.
Qed.

(** It is at most [n] when [x] stays [2^-51 (x + 1)] clear of [n + 1/2]. *)
Lemma qRound_fl_upper (x : Q) (n : Z) :
  0 < x -> x <= 2147483647 ->
  x + (1 # 2) + (x + 1) * (1 # 2 ^ 51) < inject_Z (n + 1) ->
  (qRound (Double.fl x) <= n)%Z.
Proof.
  intros H0 H1 Hn. destruct (qRound_fl x H0 H1) as [E _]. rewrite E.
  destruct (fl_error x H0) as [_ E1].
  pose proof (fl_nonneg x ltac:(lra)) as Hp.
  destruct (fl_error (Double.fl x + (1 # 2)) ltac:(lra)) as [_ E2].
  assert (P53 : (1 # 2 ^ 53) == (1 # 9007199254740992)) by reflexivity.
  assert (P51 : (1 # 2 ^ 51) == (1 # 2251799813685248)) by reflexivity.
  rewrite P53 in E1, E2. rewrite P51 in Hn.
  set (p := Double.fl x) in *. set (s := Double.fl (p + (1 # 2))) in *.
  clearbody p s.
  assert (Hs : s < inject_Z (n + 1)) by nra.
  pose proof (Qfloor_le s) as Hf.
  assert (A : inject_Z (Qfloor s) < inject_Z (n + 1)) by lra.
  rewrite <- Zlt_Qlt in A. lia.
Qed.

Lemma qRound_fl_monotone (x y : Q) :
  0 < x -> x <= y -> y <= 2147483647 ->
  (qRound (Double.fl x) <= qRound (Double.fl y))%Z.
Proof.
  intros H0 Hxy H1.
  destruct (qRound_fl x H0 ltac:(lra)) as [-> _].
  destruct (qRound_fl y ltac:(lra) H1) as [-> _].
  apply Qfloor_resp_le. apply fl_monotone.
  - pose proof (fl_nonneg x ltac:(lra)). lra.
  - apply Qplus_le_l. apply fl_monotone; lra.
Qed.

(** Up to the binary64 value next below one half but one, it is 0. *)
Lemma qRound_fl_zero (x : Q) :
  0 < x -> x <= (1 # 2) - (1 # 2 ^ 53) -> qRound (Double.fl x) = 0%Z.
Proof.
  intros H0 H1.
  assert (Hx : x <= 2147483647).
  { apply Qle_trans with ((1 # 2) - (1 # 2 ^ 53)); [exact H1 | discriminate]. }
  destruct (qRound_fl x H0 Hx) as [E [Hlo _]].
  assert (P1 : Double.fl x <= inject_Z (2 ^ 52 - 1) * 2 ^ (-53)).
  { rewrite <- (fl_exact (inject_Z (2 ^ 52 - 1) * 2 ^ (-53)) (2 ^ 52 - 1) (-53));
      [| lia | reflexivity].
    apply fl_monotone; [lra |].
    apply Qle_trans with ((1 # 2) - (1 # 2 ^ 53)); [exact H1 | discriminate]. }
  assert (P2 : Double.fl (Double.fl x + (1 # 2)) <= inject_Z (2 ^ 53 - 1) * 2 ^ (-53)).
  { rewrite <- (fl_exact (inject_Z (2 ^ 53 - 1) * 2 ^ (-53)) (2 ^ 53 - 1) (-53));
      [| lia | reflexivity].
    apply fl_monotone.
    - pose proof (fl_nonneg x ltac:(lra)). lra.
    - apply Qle_trans with (inject_Z (2 ^ 52 - 1) * 2 ^ (-53) + (1 # 2));
        [| discriminate].
      apply Qplus_le_l. exact P1. }
  assert (P3 : Double.fl (Double.fl x + (1 # 2)) < inject_Z (0 + 1)).
  { eapply Qle_lt_trans; [exact P2 | reflexivity]. }
  pose proof (Qfloor_le (Double.fl (Double.fl x + (1 # 2)))) as Hf.
  assert (A : inject_Z (Qfloor (Double.fl (Double.fl x + (1 # 2)))) < inject_Z (0 + 1))
    by (eapply Qle_lt_trans; eassumption).
  rewrite <- Zlt_Qlt in A. lia.
Qed.


End BinaryRounding.

(** ** [Double] against the Standard Library's IEEE 754

    On the sample rates and durations every operation of the start slot
    (the product, the quotient, the sum with 0.5) has in [Double] the value
    it has in [SpecFloat]. *)
Example Double_agrees_with_SpecFloat :
  let half := Binary64.div (Binary64.of_Z 1) (Binary64.of_Z 2) in
  let thousand := Binary64.of_Z 1000 in
  forallb (fun fps =>
    Binary64.agree Double.div Binary64.div thousand fps &&
    Binary64.agree Double.add Binary64.add (Binary64.div thousand fps) half &&
    forallb (fun duration =>
      Binary64.agree Double.mul Binary64.mul fps duration &&
      Binary64.agree Double.add Binary64.add (Binary64.mul fps duration) half)
      Binary64.durations) Binary64.rates = true.
Proof. vm_compute. reflexivity. Qed.

(** The values the examples below are about. *)
Example Double_examples :
  (Double.div 3 10 == 5404319552844595 # 18014398509481984)%Q /\
  (Double.mul (Double.div 3 10) 5 == 3 # 2)%Q /\
  (Double.div 1000 (Double.div 32 10) == 625 # 2)%Q /\
  (Double.add (9007199254740991 # 18014398509481984) (1 # 2) == 1)%Q /\
  (Double.div 1000 (Double.div 1 100000000) == 100000000000)%Q /\
  Int.of_double 100000000000 = Int.min_int /\
  Int.of_double (- (5 # 2)) = -2 /\ Int.of_double (5 # 2) = 2 /\
  qRound (3 # 2) = 2 /\ qRound (5 # 2) = 3 /\ qRound (- (3 # 2)) = -2.
Proof. repeat split; vm_compute; reflexivity. Qed.

Lemma qMax_max a b : qMax a b = Z.max a b.
Proof. unfold qMax. destruct (Z.ltb_spec a b); lia. Qed.

Lemma wrap_small z : Int.min_int <= z <= Int.max_int -> Int.wrap z = z.
Proof.
  unfold Int.wrap, Int.min_int, Int.max_int. intros H.
  rewrite Z.mod_small; lia.
Qed.

(** ** Start *)

Lemma length_retire w : length (retire w) = length (timers w).
Proof.
  unfold retire. destruct (csvTimer w); [| reflexivity]. by rewrite !length_alter.
Qed.

Lemma alter_snoc_fresh (f : QTimer -> QTimer) (l : list QTimer) (t : QTimer) :
  alter f (length l) (l ++ [t]) = l ++ [f t].
Proof.
  rewrite alter_app_r_alt by lia. by rewrite Nat.sub_diag.
Qed.

Lemma lookup_snoc_cases (l : list QTimer) (x t : QTimer) (j : nat) :
  (l ++ [x]) !! j = Some t ->
  (j < length l)%nat /\ l !! j = Some t \/ j = length l /\ t = x.
Proof.
  intros H. apply lookup_snoc_Some in H. destruct H as [[? ?] | [? ?]]; auto.
Qed.

Section ValidStart.

Variables (fps duration : Q) (desktop stamp : string).
Hypothesis Hfps : (0 < fps)%Q.
Hypothesis Hduration : (0 < duration)%Q.

(** The window a start leaves when its parameters are valid and the file
    could be opened. *)
Lemma start_ok w :
  on_btnStart_clicked fps duration desktop stamp true w =
  ([], {| ui := mkUi (botLeftNum (ui w)) (topLeftNum (ui w)) (topRightNum (ui w))
                      (qRound (Double.mul fps duration)) 0;
          _serialPort := _serialPort w;
          Pico_Port := Pico_Port w;
          csvFile := mkQFile (csvPath desktop stamp) true;
          csvRunning := true;
          csvTimer := Some (length (timers w));
          zeroTopLeft := zeroTopLeft w;
          zeroTopRight := zeroTopRight w;
          zeroBotLeft := zeroBotLeft w;
          buffer := buffer w;
          timers := retire w ++
                    [mkQTimer true (intervalMs fps) (qRound (Double.mul fps duration)) 0 false];
          disk := <[csvPath desktop stamp := [TextLine csvHeader]]> (disk w);
          picoWire := picoWire w |}).
Proof.
  unfold on_btnStart_clicked.
  rewrite (Qle_bool_pos_false _ Hfps), (Qle_bool_pos_false _ Hduration). fields.
  generalize (qRound (Double.mul fps duration)) (intervalMs fps). intros total ms.
  unfold startCsvRecording, csvFile_setFileName, csvFile_open, csvStream_write,
    csvLines, csvFile_close, progressBar_setValue, progressBar_setRange, retire, onTimer.
  destruct w as [u sp pp [fn op] rn tm ztl ztr zbl buf ts dk pw].
  destruct op, tm as [j |]; fields; rewrite lookup_insert_eq, insert_insert_eq;
    fields; cbn [default app];
    rewrite alter_snoc_fresh; rewrite ?length_alter; reflexivity.
Qed.

(** The window a start leaves when its parameters are valid and the file
    could not be opened: the dialog is shown, and the timer is armed all the
    same. *)
Lemma start_failed w :
  on_btnStart_clicked fps duration desktop stamp false w =
  ([CsvCreateFailed],
   {| ui := mkUi (botLeftNum (ui w)) (topLeftNum (ui w)) (topRightNum (ui w))
              (qRound (Double.mul fps duration)) 0;
      _serialPort := _serialPort w;
      Pico_Port := Pico_Port w;
      csvFile := mkQFile (csvPath desktop stamp) false;
      csvRunning := csvRunning w;
      csvTimer := Some (length (timers w));
      zeroTopLeft := zeroTopLeft w;
      zeroTopRight := zeroTopRight w;
      zeroBotLeft := zeroBotLeft w;
      buffer := buffer w;
      timers := retire w ++
                [mkQTimer true (intervalMs fps) (qRound (Double.mul fps duration)) 0 false];
      disk := disk w;
      picoWire := picoWire w |}).
Proof.
  unfold on_btnStart_clicked.
  rewrite (Qle_bool_pos_false _ Hfps), (Qle_bool_pos_false _ Hduration). fields.
  generalize (qRound (Double.mul fps duration)) (intervalMs fps). intros total ms.
  unfold startCsvRecording, csvFile_setFileName, csvFile_open, csvStream_write,
    csvLines, csvFile_close, progressBar_setValue, progressBar_setRange, retire, onTimer.
  destruct w as [u sp pp [fn op] rn tm ztl ztr zbl buf ts dk pw].
  destruct op, tm as [j |]; fields;
    rewrite alter_snoc_fresh; rewrite ?length_alter; reflexivity.
Qed.

(** A valid start that opens its file begins a session on the fresh timer,
    with no frame taken and only the header in the file. *)
Lemma start_session w :
  Session (length (timers w)) (qRound (Double.mul fps duration)) 0 []
    (snd (on_btnStart_clicked fps duration desktop stamp true w)).
Proof.
  rewrite start_ok. cbn [snd]. split; fields.
  - reflexivity.
  - exists (intervalMs fps), false. rewrite <- (length_retire w).
    by apply list_lookup_middle.
  - reflexivity.
  - reflexivity.
  - unfold csvLines. fields. by rewrite lookup_insert_eq.
Qed.

End ValidStart.

Lemma start_invalid fps duration desktop stamp openOk w :
  (fps <= 0)%Q \/ (duration <= 0)%Q ->
  on_btnStart_clicked fps duration desktop stamp openOk w = ([InvalidInput], w).
Proof.
  intros H. unfold on_btnStart_clicked.
  assert (E : Qle_bool fps 0 || Qle_bool duration 0 = true).
  { apply orb_true_iff. destruct H as [H | H]; [left | right];
      apply Qle_bool_iff; exact H. }
  rewrite E. reflexivity.
Qed.

(** ** The invariant of reachable windows *)

(** A retired timer cannot fire. *)
Lemma retire_inactive w j t :
  WF w -> retire w !! j = Some t -> isActive t = false.
Proof.
  intros Hwf. unfold retire. destruct (csvTimer w) as [c |] eqn:Ec.
  - destruct (decide (c = j)) as [-> | Hne].
    + rewrite list_lookup_alter_eq, list_lookup_alter_eq.
      destruct (timers w !! j); intros [= <-]. reflexivity.
    + rewrite list_lookup_alter_ne, list_lookup_alter_ne by done.
      intros Hj. destruct (isActive t) eqn:Ha; [| reflexivity].
      pose proof (wf_active w Hwf j t Hj Ha). congruence.
  - intros Hj. destruct (isActive t) eqn:Ha; [| reflexivity].
    pose proof (wf_active w Hwf j t Hj Ha). congruence.
Qed.

Lemma WF_start_armed w (ui' : Ui) f rn tl tr bl d total ms sp pp buf pw :
  WF w -> (isOpen f = true -> rn = true) ->
  WF {| ui := ui'; _serialPort := sp; Pico_Port := pp; csvFile := f;
        csvRunning := rn; csvTimer := Some (length (timers w));
        zeroTopLeft := tl; zeroTopRight := tr; zeroBotLeft := bl;
        buffer := buf;
        timers := retire w ++ [mkQTimer true ms total 0 false];
        disk := d; picoWire := pw |}.
Proof.
  intros Hwf Hf. split; fields.
  - intros j t Hj Ha. apply lookup_snoc_cases in Hj.
    destruct Hj as [[_ Hj] | [-> _]].
    + pose proof (retire_inactive w j t Hwf Hj). congruence.
    + by rewrite length_retire.
  - intros _. exists (length (timers w)), (mkQTimer true ms total 0 false).
    split; [reflexivity |]. split; [| reflexivity].
    rewrite <- (length_retire w). by apply list_lookup_middle.
  - exact Hf.
  - intros j [= <-]. rewrite length_app, length_retire. simpl. lia.
Qed.

Lemma WF_initial : WF initial.
Proof.
  split; cbn [initial timers csvRunning csvFile isOpen csvTimer]; try done.
Qed.

(** ** What each slot leaves alone *)

Lemma WF_ext w w' :
  timers w' = timers w -> csvTimer w' = csvTimer w ->
  csvRunning w' = csvRunning w -> isOpen (csvFile w') = isOpen (csvFile w) ->
  WF w -> WF w'.
Proof.
  intros Ht Hc Hr Ho [H1 H2 H3 H4]. split; rewrite ?Ht, ?Hc, ?Hr, ?Ho; assumption.
Qed.

Lemma capture_zero w : capture (on_btnZero_clicked w) = capture w.
Proof. reflexivity. Qed.

Lemma capture_readData bytes w : capture (readData bytes w) = capture w.
Proof.
  unfold readData. destruct (_serialPort w) as [p |]; [| reflexivity].
  destruct (portIsOpen p); [| reflexivity]. cbn [negb].
  destruct (length _ =? 3)%nat; [| reflexivity].
  repeat case_match; reflexivity.
Qed.

Lemma capture_openPort name ok w :
  capture (snd (on_btnOpenPort_clicked name ok w)) = capture w.
Proof. unfold on_btnOpenPort_clicked. destruct ok; reflexivity. Qed.

Lemma capture_pico name ok w :
  capture (snd (on_PicoButton_clicked name ok w)) = capture w.
Proof. unfold on_PicoButton_clicked. destruct ok; reflexivity. Qed.

Lemma capture_closPort w : capture (on_btnClosPort_clicked w) = capture w.
Proof.
  unfold on_btnClosPort_clicked.
  destruct w as [u sp pp f rn tm ztl ztr zbl buf ts dk pw].
  destruct sp, pp; reflexivity.
Qed.

Lemma WF_capture w w' : capture w' = capture w -> WF w -> WF w'.
Proof.
  unfold capture. intros [= Ht Hc Hr Hf Hd]. apply WF_ext; congruence.
Qed.

(** ** Stop *)

Lemma stop_fields w :
  timers (on_btnStop_clicked w) =
    match csvTimer w with
    | Some j => alter QTimer_stop j (timers w)
    | None => timers w
    end /\
  csvTimer (on_btnStop_clicked w) = csvTimer w /\
  csvRunning (on_btnStop_clicked w) = false /\
  csvFile (on_btnStop_clicked w) = mkQFile (fileName (csvFile w)) false /\
  disk (on_btnStop_clicked w) = disk w /\
  ui (on_btnStop_clicked w) = ui w /\
  zeroTopLeft (on_btnStop_clicked w) = zeroTopLeft w /\
  zeroTopRight (on_btnStop_clicked w) = zeroTopRight w /\
  zeroBotLeft (on_btnStop_clicked w) = zeroBotLeft w.
Proof.
  unfold on_btnStop_clicked, stopCsvRecording, csvFile_close, onTimer.
  destruct w as [u sp pp [fn op] rn tm ztl ztr zbl buf ts dk pw].
  destruct tm, op; fields; repeat split; reflexivity.
Qed.

Lemma stop_all_inactive w j t :
  WF w -> timers (on_btnStop_clicked w) !! j = Some t -> isActive t = false.
Proof.
  intros Hwf. destruct (stop_fields w) as (-> & _).
  destruct (csvTimer w) as [c |] eqn:Ec.
  - destruct (decide (c = j)) as [-> | Hne].
    + rewrite list_lookup_alter_eq. destruct (timers w !! j); intros [= <-]. reflexivity.
    + rewrite list_lookup_alter_ne by done. intros Hj.
      destruct (isActive t) eqn:Ha; [| reflexivity].
      pose proof (wf_active w Hwf j t Hj Ha). congruence.
  - intros Hj. destruct (isActive t) eqn:Ha; [| reflexivity].
    pose proof (wf_active w Hwf j t Hj Ha). congruence.
Qed.

Lemma WF_stop w : WF w -> WF (on_btnStop_clicked w).
Proof.
  intros Hwf. pose proof (stop_all_inactive w) as Hin.
  destruct (stop_fields w) as (Ht & Hc & Hr & Hf & _).
  split.
  - intros j t Hj Ha. pose proof (Hin j t Hwf Hj). congruence.
  - rewrite Hr. discriminate.
  - rewrite Hf. discriminate.
  - rewrite Hc, Ht. intros j Hj. pose proof (wf_bound w Hwf j Hj).
    destruct (csvTimer w); by rewrite ?length_alter.
Qed.

(** ** One firing of a timer *)

Lemma timeout_cases i now w :
  timeout i now w = w \/
  (exists t, timers w !! i = Some t /\ isActive t = true /\
             totalFrames t <= framesCaptured t /\
             timeout i now w = on_btnStop_clicked w) \/
  (exists t, timers w !! i = Some t /\ isActive t = true /\
             framesCaptured t < totalFrames t /\
             timeout i now w =
               progressBar_setValue (framesCaptured t + 1)
                 (onTimer i QTimer_count (picoTrigger (writeCsvData now w)))).
Proof.
  unfold timeout, timerLambda.
  destruct (timers w !! i) as [t |] eqn:Et; [| by left].
  destruct (isActive t) eqn:Ha; [| by left]. right.
  destruct (Z.leb_spec (totalFrames t) (framesCaptured t)).
  - left. exists t. auto.
  - right. exists t. auto.
Qed.

(** A timer that is not active does not fire. *)
Lemma timeout_inactive i now w :
  (forall t, timers w !! i = Some t -> isActive t = false) -> timeout i now w = w.
Proof.
  intros H. unfold timeout. destruct (timers w !! i) as [t |]; [| reflexivity].
  by rewrite (H t eq_refl).
Qed.

Lemma count_fields v i now w :
  let w' := progressBar_setValue v
              (onTimer i QTimer_count (picoTrigger (writeCsvData now w))) in
  timers w' = alter QTimer_count i (timers w) /\
  csvTimer w' = csvTimer w /\
  csvRunning w' = csvRunning w /\
  csvFile w' = csvFile w /\
  disk w' = disk (writeCsvData now w) /\
  botLeftNum (ui w') = botLeftNum (ui w) /\
  topLeftNum (ui w') = topLeftNum (ui w) /\
  topRightNum (ui w') = topRightNum (ui w) /\
  zeroTopLeft w' = zeroTopLeft w /\
  zeroTopRight w' = zeroTopRight w /\
  zeroBotLeft w' = zeroBotLeft w.
Proof.
  unfold progressBar_setValue, onTimer, picoTrigger, writeCsvData, csvStream_write.
  destruct (negb (csvRunning w) || negb (isOpen (csvFile w)));
    [| destruct (isOpen (csvFile w)) ];
    match goal with |- context [picoIsOpen ?x] => destruct (picoIsOpen x) end;
    fields; repeat split; reflexivity.
Qed.

Lemma WF_timeout i now w : WF w -> WF (timeout i now w).
Proof.
  intros Hwf.
  destruct (timeout_cases i now w) as [-> | [(t & _ & _ & _ & ->) | (t & Ht & Ha & _ & ->)]];
    [assumption | by apply WF_stop |].
  destruct (count_fields (framesCaptured t + 1) i now w)
    as (Et & Ec & Er & Ef & _).
  destruct Hwf as [H1 H2 H3 H4].
  split; rewrite ?Et, ?Ec, ?Er, ?Ef.
  - intros j t' Hj Ha'. destruct (decide (i = j)) as [-> | Hne].
    + by apply (H1 j t).
    + rewrite list_lookup_alter_ne in Hj by done. by apply (H1 j t').
  - intros Hr. destruct (H2 Hr) as (j & t' & Hc & Hj & Ha').
    destruct (decide (i = j)) as [-> | Hne].
    + exists j, (QTimer_count t'). rewrite list_lookup_alter_eq, Hj. auto.
    + exists j, t'. rewrite list_lookup_alter_ne by done. auto.
  - exact H3.
  - intros j Hj. rewrite length_alter. by apply H4.
Qed.

Lemma WF_start fps duration desktop stamp openOk w :
  WF w -> WF (snd (on_btnStart_clicked fps duration desktop stamp openOk w)).
Proof.
  intros Hwf.
  destruct (Qlt_le_dec 0 fps) as [Hf | Hf];
    [destruct (Qlt_le_dec 0 duration) as [Hd | Hd] |].
  - destruct openOk.
    + rewrite start_ok by assumption. apply WF_start_armed; auto.
    + rewrite start_failed by assumption. apply WF_start_armed; auto.
      cbn. discriminate.
  - rewrite start_invalid by auto. exact Hwf.
  - rewrite start_invalid by auto. exact Hwf.
Qed.

Lemma WF_step e w : WF w -> WF (snd (step e w)).
Proof.
  intros Hwf. destruct e; cbn [step snd].
  - by apply WF_start.
  - by apply WF_stop.
  - eapply WF_capture; [apply capture_openPort | assumption].
  - eapply WF_capture; [apply capture_closPort | assumption].
  - eapply WF_capture; [apply capture_pico | assumption].
  - eapply WF_capture; [apply capture_zero | assumption].
  - eapply WF_capture; [apply capture_readData | assumption].
  - by apply WF_timeout.
Qed.

Lemma reachable_WF w : reachable w -> WF w.
Proof.
  induction 1 as [| e w _ IH]; [apply WF_initial | by apply WF_step].
Qed.

Lemma reachable_run es w : reachable w -> reachable (run es w).
Proof.
  revert w. induction es as [| e es IH]; intros w Hw; cbn [run]; [assumption |].
  apply IH. by constructor.
Qed.

(** ** Sessions *)

Lemma csvRow_ext now w w' :
  botLeftNum (ui w') = botLeftNum (ui w) ->
  topLeftNum (ui w') = topLeftNum (ui w) ->
  topRightNum (ui w') = topRightNum (ui w) ->
  zeroTopLeft w' = zeroTopLeft w ->
  zeroTopRight w' = zeroTopRight w ->
  zeroBotLeft w' = zeroBotLeft w ->
  csvRow now w' = csvRow now w.
Proof. intros. unfold csvRow. congruence. Qed.

Lemma csvRow_timeout now' i now w : csvRow now' (timeout i now w) = csvRow now' w.
Proof.
  destruct (timeout_cases i now w) as [-> | [(t & _ & _ & _ & ->) | (t & _ & _ & _ & ->)]].
  - reflexivity.
  - destruct (stop_fields w) as (_ & _ & _ & _ & _ & Hu & ? & ? & ?).
    apply csvRow_ext; congruence.
  - destruct (count_fields (framesCaptured t + 1) i now w)
      as (_ & _ & _ & _ & _ & ? & ? & ? & ? & ? & ?).
    apply csvRow_ext; assumption.
Qed.

Lemma csvRow_start now fps duration desktop stamp openOk w :
  csvRow now (snd (on_btnStart_clicked fps duration desktop stamp openOk w)) =
  csvRow now w.
Proof.
  destruct (Qlt_le_dec 0 fps) as [Hf | Hf];
    [destruct (Qlt_le_dec 0 duration) as [Hd | Hd] |].
  - destruct openOk; [rewrite start_ok by assumption | rewrite start_failed by assumption];
      reflexivity.
  - by rewrite start_invalid by auto.
  - by rewrite start_invalid by auto.
Qed.

Lemma session_tick i total k rows now w :
  Session i total k rows w -> k < total ->
  Session i total (k + 1) (rows ++ [csvRow now w]) (timeout i now w).
Proof.
  intros [Hc (ms & dl & Ht) Hr Ho Hl] Hk.
  unfold timeout, timerLambda. rewrite Ht. fields.
  destruct (Z.leb_spec total k) as [? | _]; [lia |].
  destruct (count_fields (k + 1) i now w) as (Et & Ec & Er & Ef & Ed & _).
  split.
  - congruence.
  - exists ms, dl. rewrite Et, list_lookup_alter_eq, Ht. reflexivity.
  - congruence.
  - congruence.
  - unfold csvLines. rewrite Ed, Ef. unfold writeCsvData, csvStream_write.
    rewrite Hr, Ho. fields. rewrite lookup_insert_eq. cbn [default].
    rewrite Hl, map_app. reflexivity.
Qed.

Lemma session_capture i total k rows w w' :
  capture w' = capture w -> Session i total k rows w -> Session i total k rows w'.
Proof.
  unfold capture. intros [= Et Ec Er Ef Ed] [Hc Ht Hr Ho Hl].
  split; unfold csvLines; rewrite ?Et, ?Ec, ?Er, ?Ef, ?Ed; assumption.
Qed.

Lemma length_sampled i es : forall w, length (sampled i es w) = tickCount i es.
Proof.
  induction es as [| e es IH]; intros w; [reflexivity |].
  cbn [sampled tickCount]. rewrite length_app, IH.
  destruct e; try reflexivity. cbn [sampleAt]. by destruct (timer =? i)%nat.
Qed.

(** One event that is not a press of Start or Stop: a firing of the
    session's timer within the budget adds its row, everything else leaves
    the session where it is. *)
Lemma session_step i total k rows e w :
  WF w -> Session i total k rows w -> keepsSession e = true ->
  (sampleAt i e w <> [] -> k < total) ->
  Session i total (k + Z.of_nat (length (sampleAt i e w)))
    (rows ++ sampleAt i e w) (snd (step e w)).
Proof.
  intros Hwf Hs Hk Hle.
  assert (Hsame : forall w', capture w' = capture w ->
            Session i total (k + 0) (rows ++ []) w').
  { intros w' Hc. rewrite Z.add_0_r, app_nil_r. by apply (session_capture _ _ _ _ w). }
  destruct e; cbn [keepsSession] in Hk; try discriminate;
    cbn [step snd sampleAt length Z.of_nat] in *.
  - apply Hsame, capture_openPort.
  - apply Hsame, capture_closPort.
  - apply Hsame, capture_pico.
  - apply Hsame, capture_zero.
  - apply Hsame, capture_readData.
  - destruct (Nat.eqb_spec timer i) as [-> | Hne].
    + cbn [length Z.of_nat Pos.of_succ_nat] in *.
      apply session_tick; [assumption | by apply Hle].
    + rewrite timeout_inactive; [by apply Hsame |].
      intros t Ht. destruct (isActive t) eqn:Ha; [| reflexivity].
      pose proof (wf_active w Hwf timer t Ht Ha) as Hc.
      rewrite (session_timer _ _ _ _ _ Hs) in Hc. congruence.
Qed.

Lemma session_events i total es : forall k rows w,
  WF w -> Session i total k rows w -> forallb keepsSession es = true ->
  k + Z.of_nat (tickCount i es) <= total ->
  Session i total (k + Z.of_nat (tickCount i es))
    (rows ++ sampled i es w) (run es w).
Proof.
  induction es as [| e es IH]; intros k rows w Hwf Hs Hk Hle.
  - cbn [tickCount sampled run Z.of_nat]. by rewrite Z.add_0_r, app_nil_r.
  - cbn [forallb] in Hk. apply andb_true_iff in Hk. destruct Hk as [Hk Hks].
    assert (Hn : tickCount i (e :: es) =
                 (length (sampleAt i e w) + tickCount i es)%nat).
    { destruct e; try reflexivity. cbn [tickCount sampleAt].
      by destruct (timer =? i)%nat. }
    rewrite Hn in *. rewrite Nat2Z.inj_add in *.
    assert (Hlt : sampleAt i e w <> [] -> k < total).
    { intros Hne. destruct (sampleAt i e w); [done | cbn [length] in Hle; lia]. }
    pose proof (session_step i total k rows e w Hwf Hs Hk Hlt) as Hs'.
    specialize (IH _ _ _ (WF_step e w Hwf) Hs' Hks ltac:(lia)).
    cbn [sampled run]. rewrite Z.add_assoc, app_assoc. exact IH.
Qed.

(** While the session's timer does not fire the session stays where it is,
    whatever its budget. *)
Lemma session_quiet i total es : forall k rows w,
  WF w -> Session i total k rows w -> forallb keepsSession es = true ->
  tickCount i es = 0%nat ->
  Session i total k rows (run es w) /\ sampled i es w = [].
Proof.
  induction es as [| e es IH]; intros k rows w Hwf Hs Hk Hn; [by split |].
  cbn [forallb] in Hk. apply andb_true_iff in Hk. destruct Hk as [Hk Hks].
  assert (Hn' : sampleAt i e w = [] /\ tickCount i es = 0%nat).
  { destruct e; try (by split). cbn [tickCount sampleAt] in *.
    destruct (timer =? i)%nat; [discriminate Hn | by split]. }
  destruct Hn' as [He Hes].
  pose proof (session_step i total k rows e w Hwf Hs Hk) as Hs'.
  rewrite He in Hs'. cbn [length Z.of_nat] in Hs'.
  rewrite Z.add_0_r, app_nil_r in Hs'. specialize (Hs' ltac:(done)).
  destruct (IH _ _ _ (WF_step e w Hwf) Hs' Hks Hes) as [H1 H2].
  cbn [sampled run]. rewrite He, H2. by split.
Qed.

(** Stopping a session, by the button or by the exhausted frame budget,
    keeps the rows written so far and leaves the window idle. *)
Lemma session_stop i total k rows w :
  WF w -> Session i total k rows w ->
  csvLines (on_btnStop_clicked w) = TextLine csvHeader :: map DataLine rows /\
  Idle (on_btnStop_clicked w) /\
  csvRunning (on_btnStop_clicked w) = false.
Proof.
  intros Hwf [Hc Ht Hr Ho Hl].
  destruct (stop_fields w) as (Et & Ec & Er & Ef & Ed & _).
  split; [| split].
  - unfold csvLines. rewrite Ed, Ef. exact Hl.
  - split; [intros j t; by apply stop_all_inactive | by rewrite Ef].
  - exact Er.
Qed.

Lemma session_last_tick i total k rows now w :
  Session i total k rows w -> total <= k ->
  timeout i now w = on_btnStop_clicked w.
Proof.
  intros [Hc (ms & dl & Ht) Hr Ho Hl] Hk.
  unfold timeout, timerLambda. rewrite Ht. fields.
  destruct (Z.leb_spec total k) as [_ | ?]; [reflexivity | lia].
Qed.

(** The body of a timer's lambda, were it run with the file closed, writes
    no row. *)
Lemma timerLambda_no_row i now w :
  isOpen (csvFile w) = false -> disk (timerLambda i now w) = disk w.
Proof.
  intros Ho. unfold timerLambda. destruct (timers w !! i) as [t |]; [| reflexivity].
  destruct (totalFrames t <=? framesCaptured t).
  - change (disk (on_btnStop_clicked w) = disk w).
    by destruct (stop_fields w) as (_ & _ & _ & _ & -> & _).
  - destruct (count_fields (framesCaptured t + 1) i now w) as (_ & _ & _ & _ & -> & _).
    unfold writeCsvData. rewrite Ho, orb_true_r. reflexivity.
Qed.

Lemma stop_idle w : WF w -> Idle w -> on_btnStop_clicked w = w.
Proof.
  intros Hwf [Hin Ho].
  assert (Hr : csvRunning w = false).
  { destruct (csvRunning w) eqn:Hr; [| reflexivity].
    destruct (wf_running w Hwf Hr) as (j & t & _ & Hj & Ha).
    pose proof (Hin j t Hj). congruence. }
  unfold on_btnStop_clicked, stopCsvRecording, onTimer.
  destruct w as [u sp pp [fn op] rn tm ztl ztr zbl buf ts dk pw]. fields.
  subst op rn.
  assert (Hts : forall j, alter QTimer_stop j ts = ts).
  { intros j. apply list_eq. intros n. destruct (decide (j = n)) as [-> | Hne].
    - rewrite list_lookup_alter_eq. destruct (ts !! n) as [t |] eqn:Et; [| reflexivity].
      cbn. f_equal. pose proof (Hin n t Et). destruct t. cbn in *. by subst. 
    - by rewrite list_lookup_alter_ne. }
  destruct tm; fields; rewrite ?Hts; reflexivity.
Qed.

(** ** A timer once replaced stays dead *)

Lemma csvTimer_step e w c :
  WF w -> csvTimer w = Some c ->
  exists c', csvTimer (snd (step e w)) = Some c' /\ (c <= c')%nat.
Proof.
  intros Hwf Hc.
  assert (Hsame : forall w', capture w' = capture w ->
            exists c', csvTimer w' = Some c' /\ (c <= c')%nat).
  { intros w' [= _ E _ _ _]. exists c. split; [congruence | lia]. }
  destruct e; cbn [step snd].
  - destruct (Qlt_le_dec 0 fps) as [Hf | Hf];
      [destruct (Qlt_le_dec 0 duration) as [Hd | Hd] |].
    + exists (length (timers w)). pose proof (wf_bound w Hwf c Hc).
      split; [| lia].
      destruct openOk;
        [rewrite start_ok by assumption | rewrite start_failed by assumption];
        reflexivity.
    + rewrite start_invalid by auto. exists c. split; [assumption | lia].
    + rewrite start_invalid by auto. exists c. split; [assumption | lia].
  - exists c. destruct (stop_fields w) as (_ & -> & _). split; [assumption | lia].
  - apply Hsame, capture_openPort.
  - apply Hsame, capture_closPort.
  - apply Hsame, capture_pico.
  - apply Hsame, capture_zero.
  - apply Hsame, capture_readData.
  - exists c. split; [| lia].
    destruct (timeout_cases timer now w)
      as [-> | [(t & _ & _ & _ & ->) | (t & _ & _ & _ & ->)]].
    + assumption.
    + by destruct (stop_fields w) as (_ & -> & _).
    + by destruct (count_fields (framesCaptured t + 1) timer now w) as (_ & -> & _).
Qed.

Lemma csvTimer_run es : forall w c,
  WF w -> csvTimer w = Some c ->
  exists c', csvTimer (run es w) = Some c' /\ (c <= c')%nat.
Proof.
  induction es as [| e es IH]; intros w c Hwf Hc; cbn [run].
  - exists c. split; [assumption | lia].
  - destruct (csvTimer_step e w c Hwf Hc) as (c1 & Hc1 & Hle).
    destruct (IH _ c1 (WF_step e w Hwf) Hc1) as (c2 & Hc2 & Hle2).
    exists c2. split; [assumption | lia].
Qed.

Lemma retire_stop w : retire (on_btnStop_clicked w) = retire w.
Proof.
  unfold retire. destruct (stop_fields w) as (-> & -> & _).
  destruct (csvTimer w) as [c |]; [| reflexivity].
  apply list_eq. intros n. destruct (decide (c = n)) as [-> | Hne].
  - rewrite !list_lookup_alter_eq. by destruct (timers w !! n).
  - by rewrite !list_lookup_alter_ne.
Qed.


(** ** Frames *)
Lemma split_nonempty sep s : QString.split sep s <> [].
Proof.
  destruct s as [| c s]; cbn [QString.split]; [discriminate |].
  destruct (Ascii.eqb c sep); [discriminate |].
  destruct (QString.split sep s); discriminate.
Qed.

Lemma join_split sep s : join sep (QString.split sep s) = s.
Proof.
  induction s as [| c s IH]; [reflexivity |]. cbn [QString.split].
  destruct (Ascii.eqb_spec c sep) as [-> | Hne].
  - pose proof (split_nonempty sep s) as Hs.
    destruct (QString.split sep s) as [| p ps]; [done |].
    cbn [join] in *. by rewrite IH.
  - pose proof (split_nonempty sep s) as Hs.
    destruct (QString.split sep s) as [| p ps]; [done |].
    destruct ps as [| q qs]; cbn [join] in *; by rewrite <- IH.
Qed.

Lemma split_pieces sep s :
  Forall (fun p => ~ In sep (list_ascii_of_string p)) (QString.split sep s).
Proof.
  induction s as [| c s IH]; cbn [QString.split].
  - constructor; [intros [] | constructor].
  - destruct (Ascii.eqb_spec c sep) as [-> | Hne].
    + constructor; [intros [] | exact IH].
    + destruct (QString.split sep s) as [| p ps].
      * constructor; [| constructor]. cbn. intros [? | []]. congruence.
      * inversion IH as [| ? ? Hp Hps]; subst. constructor; [| exact Hps].
        cbn. intros [? | ?]; [congruence | by apply Hp].
Qed.

Lemma split_single sep s :
  ~ In sep (list_ascii_of_string s) -> QString.split sep s = [s].
Proof.
  induction s as [| c s IH]; intros Hs; [reflexivity |].
  cbn [QString.split]. cbn in Hs.
  destruct (Ascii.eqb_spec c sep) as [-> | Hne]; [tauto |].
  rewrite IH by tauto. reflexivity.
Qed.

Lemma split_app sep s r :
  ~ In sep (list_ascii_of_string s) ->
  QString.split sep (s ++ String sep r) = s :: QString.split sep r.
Proof.
  induction s as [| c s IH]; intros Hs.
  - simpl. by rewrite Ascii.eqb_refl.
  - simpl. simpl in Hs.
    destruct (Ascii.eqb_spec c sep) as [-> | Hne]; [tauto |].
    rewrite IH by tauto. reflexivity.
Qed.

Lemma parseFrame_resolves data :
  is_Some (parseFrame data) <-> resolvesToThreeIntegers data.
Proof.
  unfold parseFrame, resolvesToThreeIntegers. split.
  - intros Hp.
    pose proof (join_split ","%char (QString.trimmed data)) as Hj.
    pose proof (split_pieces ","%char (QString.trimmed data)) as Hf.
    destruct (QString.split "," (QString.trimmed data)) as [| a [| b [| c [| d l]]]];
      cbn [length Nat.eqb] in Hp.
    1, 2, 3, 5: by destruct Hp as [? [=]].
    cbn [nth] in Hp. cbn [join] in Hj.
    inversion Hf as [| ? ? Ha Hf1]; subst.
    inversion Hf1 as [| ? ? Hb Hf2]; subst.
    inversion Hf2 as [| ? ? Hc _]; subst.
    exists a, b, c. rewrite <- Hj.
    destruct (QString.toInt a) as [x |]; [| by destruct Hp as [? [=]]].
    destruct (QString.toInt b) as [y |]; [| by destruct Hp as [? [=]]].
    destruct (QString.toInt c) as [z |]; [| by destruct Hp as [? [=]]].
    repeat split; eauto.
  - intros (sa & sb & sc & -> & Ha & Hb & Hc & [a Ea] & [b Eb] & [c Ec]).
    change (sa ++ "," ++ sb ++ "," ++ sc)%string
      with (sa ++ String "," (sb ++ String "," sc))%string.
    rewrite (split_app _ _ _ Ha), (split_app _ _ _ Hb), (split_single _ _ Hc).
    cbn [length Nat.eqb nth]. rewrite Ea, Eb, Ec. eauto.
Qed.

Lemma parseFrame_None data :
  parseFrame data = None -> ~ resolvesToThreeIntegers data.
Proof.
  intros Hn Hr. apply parseFrame_resolves in Hr. rewrite Hn in Hr. by destruct Hr.
Qed.

Lemma readData_parse bytes w p :
  _serialPort w = Some p -> portIsOpen p = true ->
  readData bytes w =
    match parseFrame (buffer w ++ bytes) with
    | Some (botLeft, topLeft, topRight) =>
        set_buffer EmptyString
          (display (Int.wrap (botLeft - zeroBotLeft w))
                   (Int.wrap (topLeft - zeroTopLeft w))
                   (Int.wrap (topRight - zeroTopRight w)) w)
    | None => set_buffer EmptyString w
    end.
Proof.
  intros Hp Ho. unfold readData, parseFrame. rewrite Hp, Ho. cbn [negb].
  cbn [buffer set_buffer].
  destruct (length _ =? 3)%nat; [| reflexivity].
  destruct (QString.toInt _) as [a |]; [| reflexivity].
  destruct (QString.toInt _) as [b |]; [| reflexivity].
  destruct (QString.toInt _) as [c |]; reflexivity.
Qed.

Lemma readData_discards bytes w :
  parseFrame (buffer w ++ bytes) = None ->
  set_buffer EmptyString (readData bytes w) = set_buffer EmptyString w.
Proof.
  intros Hn. destruct (_serialPort w) as [p |] eqn:Hp.
  - destruct (portIsOpen p) eqn:Ho.
    + rewrite (readData_parse bytes w p Hp Ho), Hn. reflexivity.
    + unfold readData. by rewrite Hp, Ho.
  - unfold readData. by rewrite Hp.
Qed.


(** ** The displays between two frames *)

Lemma displayed_step e w :
  quietEvent e w -> displayed (snd (step e w)) = displayed w.
Proof.
  destruct e; cbn [quietEvent step snd]; intros Hq; try done.
  - destruct (Qlt_le_dec 0 fps) as [Hf | Hf];
      [destruct (Qlt_le_dec 0 duration) as [Hd | Hd] |].
    + destruct openOk;
        [rewrite start_ok by assumption | rewrite start_failed by assumption];
        reflexivity.
    + by rewrite start_invalid by auto.
    + by rewrite start_invalid by auto.
  - unfold displayed. by destruct (stop_fields w) as (_ & _ & _ & _ & _ & -> & _).
  - unfold on_PicoButton_clicked. destruct openOk; reflexivity.
  - assert (Hn : parseFrame (buffer w ++ bytes) = None).
    { destruct (parseFrame (buffer w ++ bytes)) eqn:E; [| reflexivity].
      exfalso. apply Hq, parseFrame_resolves. eauto. }
    change (displayed (set_buffer EmptyString (readData bytes w)) = displayed w).
    by rewrite (readData_discards bytes w Hn).
  - destruct (timeout_cases timer now w)
      as [-> | [(t & _ & _ & _ & ->) | (t & _ & _ & _ & ->)]].
    + reflexivity.
    + unfold displayed. by destruct (stop_fields w) as (_ & _ & _ & _ & _ & -> & _).
    + destruct (count_fields (framesCaptured t + 1) timer now w)
        as (_ & _ & _ & _ & _ & Ha & Hb & Hc & _).
      unfold displayed. by rewrite Ha, Hb, Hc.
Qed.

Lemma displayed_run es : forall w,
  quietRun es w -> displayed (run es w) = displayed w.
Proof.
  induction es as [| e es IH]; intros w Hq; [reflexivity |].
  destruct Hq as [He Hes]. cbn [run]. rewrite (IH _ Hes).
  by apply displayed_step.
Qed.

(** On a tick that follows the parsed frame directly, with no overflow in
    the subtraction, the three raw columns are the frame's readings. *)
Lemma csvRow_after_frame now bytes w p botLeft topLeft topRight :
  _serialPort w = Some p -> portIsOpen p = true ->
  parseFrame (buffer w ++ bytes) = Some (botLeft, topLeft, topRight) ->
  Int.min_int <= botLeft - zeroBotLeft w <= Int.max_int ->
  Int.min_int <= topLeft - zeroTopLeft w <= Int.max_int ->
  Int.min_int <= topRight - zeroTopRight w <= Int.max_int ->
  let row := csvRow now (readData bytes w) in
  (rowTopLeftRaw row, rowTopRightRaw row, rowBotLeftRaw row) =
  (topLeft, topRight, botLeft).
Proof.
  intros Hp Ho Hf H1 H2 H3. rewrite (readData_parse bytes w p Hp Ho), Hf.
  unfold csvRow, display. fields. cbn [rowTopLeftRaw rowTopRightRaw rowBotLeftRaw].
  rewrite !wrap_small by assumption. f_equal; [f_equal |]; lia.
Qed.

(** * The specification's properties *)

(** C1, evaluated on the code: with the Pico connected, a start at 10 fps
    for 1 s whose CSV file cannot be opened shows the "Failed to create CSV
    file" dialog and leaves the file closed, yet [csvTimer] points to a
    fresh timer armed at 100 ms with a budget of 10 frames; its first tick
    runs the lambda, which sends a trigger byte to the Pico and advances
    the counter and the progress bar, while nothing is written to disk. *)
Theorem failed_csv_open_still_arms_timer :
  let w := run [PicoButton "COM4" true] initial in
  let r := on_btnStart_clicked 10 1 "Desktop" "2024-01-01_00-00-00" false w in
  let w1 := timeout 0 "2024-01-01 00:00:00.100" (snd r) in
  fst r = [CsvCreateFailed] /\
  isOpen (csvFile (snd r)) = false /\
  csvTimer (snd r) = Some 0%nat /\
  timers (snd r) = [mkQTimer true 100 10 0 false] /\
  timers w1 = [mkQTimer true 100 10 1 false] /\
  picoWire w1 = ["1"%char] /\
  progressValue (ui w1) = 1 /\
  disk w1 = ∅.
Proof. repeat split; vm_compute; reflexivity. Qed.

(** C2, as the specification words it, fails on the code. At the rate
    0.49999999999999994, the binary64 value next below one half, and a
    duration of 1 s the product is that same value and rounds to 0 frames;
    the program adds 0.5 in binary64, gets 1.0, plans 1 frame, and the
    first tick writes a row. At the rate 0.3 (the binary64 value nearest to
    it) and a duration of 5 s the binary64 product is 1.5 and the program
    plans 2 frames, where the exact product of the two values rounds to
    1. *)
Lemma natural_completion_counterexample :
  let below_half := (9007199254740991 # 18014398509481984)%Q in
  let w1 := snd (on_btnStart_clicked below_half 1 "Desktop" "2024-01-01_00-00-00"
                   true initial) in
  let w2 := timeout 0 "t1" w1 in
  let three_tenths := Double.div 3 10 in
  (Double.fl below_half == below_half)%Q /\
  (Double.mul below_half 1 == below_half * 1)%Q /\
  round_half_away_from_zero (below_half * 1) = 0 /\
  progressMaximum (ui w1) = 1 /\
  csvLines w2 = [TextLine csvHeader; DataLine (mkCsvRow "t1" 0 0 0 0 0 0)] /\
  (Double.mul three_tenths 5 == 3 # 2)%Q /\
  round_half_away_from_zero (three_tenths * 5) = 1 /\
  qRound (Double.mul three_tenths 5) = 2.
Proof. cbv zeta. repeat split; vm_compute; reflexivity. Qed.

(** C2, amended: for every fps > 0 and duration > 0, from any reachable
    window, a start whose file opens shows no dialog and a session begins
    whose frame budget is the program's [qRound] of the binary64 product
    [fps * duration]. Let any events follow other than presses of Start and
    Stop (frames arriving, Zero, the ports, timeouts), among them as many
    firings of the session's timer as the budget says (none when it is
    negative): the file then holds the header followed by exactly one data
    row per firing, each sampled from the window that firing found, and the
    session is still on (recording, file open, timer armed). The next
    firing finds the budget used up before it samples anything: it writes
    nothing to disk, sends no trigger, and leaves the window idle, with no
    stop requested. For a product up to [INT_MAX] the budget is an [int]
    not below the product rounded to the nearest integer (ties away from
    zero), and it is at most [n] whenever the product stays
    [2^-51 (product + 1)] clear of [n + 1/2]. *)
Theorem natural_completion_writes_budget_rows
    w fps duration desktop stamp es last :
  reachable w -> (0 < fps)%Q -> (0 < duration)%Q ->
  forallb keepsSession es = true ->
  let w1 := snd (on_btnStart_clicked fps duration desktop stamp true w) in
  let i := length (timers w) in
  let budget := qRound (Double.mul fps duration) in
  Z.of_nat (tickCount i es) = Z.max 0 budget ->
  let w2 := run es w1 in
  let w3 := timeout i last w2 in
  fst (on_btnStart_clicked fps duration desktop stamp true w) = [] /\
  (csvLines w2 = TextLine csvHeader :: map DataLine (sampled i es w1) /\
   Z.of_nat (length (sampled i es w1)) = Z.max 0 budget /\
   csvRunning w2 = true /\ isOpen (csvFile w2) = true /\
   exists t, timers w2 !! i = Some t /\ isActive t = true) /\
  (disk w3 = disk w2 /\ picoWire w3 = picoWire w2 /\ csvLines w3 = csvLines w2 /\
   csvRunning w3 = false /\ Idle w3) /\
  ((fps * duration <= 2147483647)%Q ->
   round_half_away_from_zero (fps * duration) <= budget <= 2147483647 /\
   forall n,
     (fps * duration + (1 # 2) + (fps * duration + 1) * (1 # 2 ^ 51)
        < inject_Z (n + 1))%Q ->
     budget <= n).
Proof.
  intros Hre Hf Hd Hks w1 i budget Hn w2 w3.
  assert (Hre1 : reachable w1).
  { exact (reachable_step (BtnStart fps duration desktop stamp true) w Hre). }
  pose proof (start_session fps duration desktop stamp Hf Hd w) as Hs.
  fold w1 i budget in Hs.
  assert (Hs2 : exists k, Session i budget k (sampled i es w1) w2 /\ budget <= k).
  { destruct (Z_le_gt_dec 0 budget) as [Hb | Hb].
    - exists (0 + Z.of_nat (tickCount i es)). split; [| lia].
      apply (session_events i budget es 0 [] w1 (reachable_WF _ Hre1) Hs Hks). lia.
    - exists 0. split; [| lia].
      destruct (session_quiet i budget es 0 [] w1 (reachable_WF _ Hre1) Hs Hks
                  ltac:(lia)) as [H1 H2].
      rewrite H2. exact H1. }
  destruct Hs2 as (k & Hs2 & Hk).
  assert (Hwf2 : WF w2) by (by apply reachable_WF, reachable_run).
  assert (E3 : w3 = on_btnStop_clicked w2).
  { subst w3. eapply session_last_tick; [exact Hs2 | exact Hk]. }
  destruct (session_stop _ _ _ _ w2 Hwf2 Hs2) as (Hl3 & Hidle & Hr3).
  split; [| split; [| split]].
  - by rewrite start_ok.
  - destruct Hs2 as [_ (ms & dl & Ht) Hr Ho Hl]. repeat split.
    + exact Hl.
    + by rewrite length_sampled.
    + exact Hr.
    + exact Ho.
    + eexists. split; [exact Ht | reflexivity].
  - rewrite E3. destruct (stop_fields w2) as (_ & _ & _ & _ & Ed & _).
    split; [exact Ed |]. split; [| split; [| split]].
    + unfold on_btnStop_clicked, stopCsvRecording, csvFile_close, onTimer.
      destruct (csvTimer w2), (isOpen (csvFile _)) eqn:?; reflexivity.
    + rewrite Hl3. symmetry. apply (session_lines _ _ _ _ _ Hs2).
    + exact Hr3.
    + exact Hidle.
  - intros Hhi.
    assert (Hx : (0 < fps * duration)%Q) by (by apply Qmult_lt_0_compat).
    split; [split |].
    + by apply qRound_fl_lower.
    + by apply qRound_fl.
    + intros n Hlt. by apply qRound_fl_upper.
Qed.

Lemma natural_completion_witness :
  let w := snd (on_btnOpenPort_clicked "COM3" true initial) in
  let es := [ReadyRead "10,20,30"; TimerFired 0 "t1"; BtnZero;
             ReadyRead "11,22,33"; TimerFired 0 "t2"; TimerFired 0 "t3"] in
  let w1 := snd (on_btnStart_clicked 2 (3 # 2) "Desktop" "2024-01-01_00-00-00" true w) in
  let w2 := run es w1 in
  let w3 := timeout 0 "t4" w2 in
  csvLines w2 =
    [TextLine csvHeader;
     DataLine (mkCsvRow "t1" 20 30 10 20 30 10);
     DataLine (mkCsvRow "t2" 2 3 1 22 33 11);
     DataLine (mkCsvRow "t3" 2 3 1 22 33 11)] /\
  csvLines w3 = csvLines w2 /\ Idle w3.
Proof.
  intros w es w1 w2 w3.
  destruct (natural_completion_writes_budget_rows
              w 2 (3 # 2) "Desktop" "2024-01-01_00-00-00" es "t4"
              (reachable_step (BtnOpenPort "COM3" true) initial reachable_initial)
              eq_refl eq_refl eq_refl ltac:(vm_compute; reflexivity))
    as (_ & (H2 & _) & (_ & _ & H3 & _ & H4) & _).
  split; [exact H2 | split; [exact H3 | exact H4]].
Defined.

(** C3: a start (valid parameters, file opened) on a reachable window whose
    [csvTimer] points to the timer [old] of an earlier session leaves the
    very window that stop followed by the same start leaves; in it exactly
    one timer is armed, the fresh one [csvTimer] now points to, the one
    [QFile] is open on a file holding only the header, and whatever events
    follow, a timeout of [old] changes nothing, so the earlier session's
    timer appends no row. *)
Theorem restart_replaces_running_session
    w fps duration desktop stamp old :
  reachable w -> (0 < fps)%Q -> (0 < duration)%Q ->
  csvTimer w = Some old ->
  let w' := snd (on_btnStart_clicked fps duration desktop stamp true w) in
  w' = snd (on_btnStart_clicked fps duration desktop stamp true
              (on_btnStop_clicked w)) /\
  (forall j t, timers w' !! j = Some t ->
               (isActive t = true <-> j = length (timers w))) /\
  csvTimer w' = Some (length (timers w)) /\
  isOpen (csvFile w') = true /\
  csvLines w' = [TextLine csvHeader] /\
  (forall es now, timeout old now (run es w') = run es w').
Proof.
  intros Hre Hf Hd Hold w'.
  pose proof (reachable_WF w Hre) as Hwf.
  assert (Hre' : reachable w').
  { exact (reachable_step (BtnStart fps duration desktop stamp true) w Hre). }
  pose proof (start_session fps duration desktop stamp Hf Hd w) as Hs.
  fold w' in Hs.
  split; [| split; [| split; [| split; [| split]]]].
  - subst w'. rewrite !start_ok by assumption. cbn [snd].
    rewrite retire_stop.
    destruct (stop_fields w) as (Et & _ & _ & _ & Ed & Eu & Ea & Eb & Ec).
    rewrite Ed, Eu, Ea, Eb, Ec.
    assert (El : length (timers (on_btnStop_clicked w)) = length (timers w)).
    { rewrite Et. destruct (csvTimer w); by rewrite ?length_alter. }
    rewrite El.
    unfold on_btnStop_clicked, stopCsvRecording, csvFile_close, onTimer.
    destruct (csvTimer w), (isOpen (csvFile _)) eqn:?; reflexivity.
  - intros j t Hj. subst w'. rewrite start_ok in Hj by assumption.
    cbn [snd timers] in Hj. apply lookup_snoc_cases in Hj.
    destruct Hj as [[Hlt Hj] | [-> ->]].
    + rewrite (retire_inactive w j t Hwf Hj). rewrite length_retire in Hlt.
      split; [discriminate | lia].
    + rewrite length_retire. split; reflexivity.
  - exact (session_timer _ _ _ _ _ Hs).
  - exact (session_open _ _ _ _ _ Hs).
  - exact (session_lines _ _ _ _ _ Hs).
  - intros es now. apply timeout_inactive. intros t Ht.
    pose proof (reachable_WF _ (reachable_run es w' Hre')) as Hwf2.
    destruct (isActive t) eqn:Ha; [| reflexivity].
    pose proof (wf_active _ Hwf2 old t Ht Ha) as Hc.
    destruct (csvTimer_run es w' _ (reachable_WF _ Hre') (session_timer _ _ _ _ _ Hs))
      as (c' & Hc' & Hle).
    pose proof (wf_bound w Hwf old Hold).
    rewrite Hc in Hc'. injection Hc' as <-. lia.
Qed.

Lemma restart_replaces_witness :
  let w := run [BtnStart 10 1 "Desktop" "2024-01-01_00-00-00" true;
                TimerFired 0 "t1"] initial in
  let w' := snd (on_btnStart_clicked 5 2 "Desktop" "2024-01-01_00-00-07" true w) in
  csvTimer w = Some 0%nat /\
  csvTimer w' = Some 1%nat /\
  isOpen (csvFile w') = true /\
  (forall es now, timeout 0 now (run es w') = run es w').
Proof.
  intros w w'.
  destruct (restart_replaces_running_session
              w 5 2 "Desktop" "2024-01-01_00-00-07" 0%nat
              (reachable_run _ initial reachable_initial) eq_refl eq_refl eq_refl)
    as (_ & _ & H1 & H2 & _ & H3).
  split; [reflexivity | split; [exact H1 | split; [exact H2 | exact H3]]].
Defined.

(** C4, as the specification words it, fails on the code: straight after
    the first zero the offsets are 50 but the displays still show 50, not
    0; and the second zero, pressed while the displays show 20, brings the
    offsets to 70 and not to 120, whether or not a frame reading 50 was
    parsed after the first zero. *)
Lemma zeroing_counterexample :
  let w0 := snd (on_btnOpenPort_clicked "COM3" true initial) in
  let w1 := on_btnZero_clicked (readData "50,50,50" w0) in
  let w2 := on_btnZero_clicked (readData "70,70,70" w1) in
  let w2' := on_btnZero_clicked
               (readData "70,70,70" (readData "50,50,50" w1)) in
  ~ (offsets w1 = (50, 50, 50) /\ displayed w1 = (0, 0, 0)) /\
  ~ (offsets w2 = (120, 120, 120)) /\
  ~ (offsets w2' = (120, 120, 120)) /\
  offsets w2 = (70, 70, 70) /\ offsets w2' = (70, 70, 70).
Proof.
  cbv zeta. split; [| split; [| split; [| split]]].
  - vm_compute. intros [_ H]. discriminate H.
  - vm_compute. intros H. discriminate H.
  - vm_compute. intros H. discriminate H.
  - vm_compute. reflexivity.
  - vm_compute. reflexivity.
Qed.

(** C4, amended: zeroing adds the displayed value of each axis to its
    offset (the sum is taken in [double] and converted back to [int]: it is
    the sum itself whenever that is an [int]), and compounds. On a freshly
    opened port with nothing buffered: a frame reading 50 displays 50; one
    zero gives offset 50, and the next frame reading 50 displays 0; a frame
    reading 70 then displays 20; zeroing again gives offset 70 (50 + 20),
    and the next frame reading 70 displays 0. *)
Theorem zeroing_adds_displayed_value name w :
  buffer w = EmptyString ->
  let w0 := snd (on_btnOpenPort_clicked name true w) in
  let w1 := readData "50,50,50" w0 in
  let w2 := on_btnZero_clicked w1 in
  let w3 := readData "50,50,50" w2 in
  let w4 := readData "70,70,70" w3 in
  let w5 := on_btnZero_clicked w4 in
  let w6 := readData "70,70,70" w5 in
  (forall v, offsets (on_btnZero_clicked v) =
             (zeroed (zeroBotLeft v) (botLeftNum (ui v)),
              zeroed (zeroTopLeft v) (topLeftNum (ui v)),
              zeroed (zeroTopRight v) (topRightNum (ui v)))) /\
  (forall zero shown,
      Int.min_int <= zero + shown <= Int.max_int -> zeroed zero shown = zero + shown) /\
  displayed w1 = (50, 50, 50) /\
  offsets w2 = (50, 50, 50) /\
  displayed w3 = (0, 0, 0) /\
  displayed w4 = (20, 20, 20) /\
  offsets w5 = (70, 70, 70) /\
  displayed w6 = (0, 0, 0).
Proof.
  intros Hb.
  destruct w as [u sp pp f rn tm ztl ztr zbl buf ts dk pw].
  cbn [buffer] in Hb. subst buf.
  split; [intros v; reflexivity |].
  split; [exact zeroed_in_range |].
  repeat split; vm_compute; reflexivity.
Qed.

Lemma zeroing_adds_displayed_value_witness :
  let w0 := snd (on_btnOpenPort_clicked "COM3" true initial) in
  let w5 := on_btnZero_clicked
              (readData "70,70,70"
                 (readData "50,50,50"
                    (on_btnZero_clicked (readData "50,50,50" w0)))) in
  offsets w5 = (70, 70, 70) /\ displayed (readData "70,70,70" w5) = (0, 0, 0).
Proof.
  destruct (zeroing_adds_displayed_value "COM3" initial eq_refl)
    as (_ & _ & _ & _ & _ & _ & H5 & H6).
  split; [exact H5 | exact H6].
Defined.

(** C5, evaluated on the code: the sensor sends the frame 10,20,30 (bottom
    left 10, top left 20, top right 30), a capture is started, Zero is
    pressed, and the timer ticks before the next frame arrives. The row
    written has 40, 60 and 20 in the three "w/o Zero" columns, where the
    raw readings are 20, 30 and 10. *)
Theorem raw_columns_after_zero_without_frame :
  let w := run [BtnOpenPort "COM3" true;
                ReadyRead "10,20,30";
                BtnStart 2 1 "Desktop" "2024-01-01_00-00-00" true;
                BtnZero;
                TimerFired 0 "2024-01-01 00:00:00.500"] initial in
  parseFrame "10,20,30" = Some (10, 20, 30) /\
  csvLines w =
    [TextLine csvHeader;
     DataLine (mkCsvRow "2024-01-01 00:00:00.500" 20 30 10 40 60 20)].
Proof. split; vm_compute; reflexivity. Qed.

(** C6: a start with fps <= 0 or duration <= 0 shows the "Invalid Input"
    warning and returns the window as it was: no file created or opened, no
    timer made or armed, nothing else changed. *)
Theorem start_rejects_nonpositive_parameters
    fps duration desktop stamp openOk w :
  (fps <= 0)%Q \/ (duration <= 0)%Q ->
  on_btnStart_clicked fps duration desktop stamp openOk w = ([InvalidInput], w).
Proof. apply start_invalid. Qed.

Lemma start_rejects_witness :
  on_btnStart_clicked 0 5 "Desktop" "2024-01-01_00-00-00" true initial =
  ([InvalidInput], initial).
Proof.
  apply start_rejects_nonpositive_parameters. left. unfold Qle. simpl. lia.
Defined.

(** C7: from any reachable window, start a session (valid parameters, file
    opened) and let any events follow other than presses of Start and Stop,
    among them fewer firings of the session's timer than its frame budget
    (the program's [qRound] of the binary64 product; for a product up to
    [INT_MAX] it is enough to stay below the product rounded to the nearest
    integer, ties away from zero, which the budget is never below); the
    timer is then still armed. Stop leaves in the file the header and
    exactly one row per firing, and the window idle; after it a timeout of
    any timer changes nothing, the body of any timer's lambda, were it run
    all the same, leaves the disk as it is, and a second stop changes
    nothing. On every reachable idle window stop changes nothing. *)
Theorem stop_halts_capture_and_is_idempotent
    w fps duration desktop stamp es :
  reachable w -> (0 < fps)%Q -> (0 < duration)%Q ->
  forallb keepsSession es = true ->
  let w1 := snd (on_btnStart_clicked fps duration desktop stamp true w) in
  let i := length (timers w) in
  Z.of_nat (tickCount i es) < qRound (Double.mul fps duration) \/
  (fps * duration <= 2147483647)%Q /\
  Z.of_nat (tickCount i es) < round_half_away_from_zero (fps * duration) ->
  let w2 := run es w1 in
  let w3 := on_btnStop_clicked w2 in
  (exists t, timers w2 !! i = Some t /\ isActive t = true) /\
  csvLines w3 = TextLine csvHeader :: map DataLine (sampled i es w1) /\
  length (sampled i es w1) = tickCount i es /\
  Idle w3 /\
  (forall j now, timeout j now w3 = w3) /\
  (forall j now, disk (timerLambda j now w3) = disk w3) /\
  on_btnStop_clicked w3 = w3 /\
  (forall w0, reachable w0 -> Idle w0 -> on_btnStop_clicked w0 = w0).
Proof.
  intros Hre Hf Hd Hks w1 i Hn w2 w3.
  assert (Hre1 : reachable w1).
  { exact (reachable_step (BtnStart fps duration desktop stamp true) w Hre). }
  pose proof (start_session fps duration desktop stamp Hf Hd w) as Hs.
  fold w1 i in Hs.
  assert (Hlt : Z.of_nat (tickCount i es) < qRound (Double.mul fps duration)).
  { destruct Hn as [Hn | [Hhi Hn]]; [exact Hn |].
    eapply Z.lt_le_trans; [exact Hn |].
    apply qRound_fl_lower; [by apply Qmult_lt_0_compat | exact Hhi]. }
  pose proof (session_events i _ es 0 [] w1 (reachable_WF _ Hre1) Hs Hks) as Hs2.
  specialize (Hs2 ltac:(lia)). fold w2 in Hs2. cbn [app] in Hs2.
  assert (Hre2 : reachable w2) by (by apply reachable_run).
  assert (Hre3 : reachable w3) by exact (reachable_step BtnStop w2 Hre2).
  destruct (session_stop _ _ _ _ w2 (reachable_WF _ Hre2) Hs2) as (Hl3 & Hidle & Hr3).
  fold w3 in Hl3, Hidle, Hr3.
  split; [| split; [| split; [| split; [| split; [| split; [| split]]]]]].
  - destruct Hs2 as [_ (ms & dl & Ht) _ _ _]. eexists. split; [exact Ht | reflexivity].
  - exact Hl3.
  - apply length_sampled.
  - exact Hidle.
  - intros j now. apply timeout_inactive. intros t. apply (proj1 Hidle).
  - intros j now. apply timerLambda_no_row. apply (proj2 Hidle).
  - apply stop_idle; [by apply reachable_WF | exact Hidle].
  - intros w0 Hre0 Hidle0. apply stop_idle; [by apply reachable_WF | exact Hidle0].
Qed.

Lemma stop_halts_capture_witness :
  let w := initial in
  let es := [TimerFired 0 "t1"; TimerFired 0 "t2"; TimerFired 0 "t3"] in
  let w1 := snd (on_btnStart_clicked 10 1 "Desktop" "2024-01-01_00-00-00" true w) in
  let w3 := on_btnStop_clicked (run es w1) in
  csvLines w3 =
    [TextLine csvHeader;
     DataLine (mkCsvRow "t1" 0 0 0 0 0 0);
     DataLine (mkCsvRow "t2" 0 0 0 0 0 0);
     DataLine (mkCsvRow "t3" 0 0 0 0 0 0)] /\
  Idle w3 /\
  (forall j now, timeout j now w3 = w3) /\
  on_btnStop_clicked w3 = w3.
Proof.
  intros w es w1 w3.
  destruct (stop_halts_capture_and_is_idempotent
              w 10 1 "Desktop" "2024-01-01_00-00-00" es
              reachable_initial eq_refl eq_refl eq_refl
              ltac:(right; split; [discriminate | reflexivity]))
    as (_ & H1 & _ & H2 & H3 & _ & H4 & _).
  split; [exact H1 | split; [exact H2 | split; [exact H3 | exact H4]]].
Defined.

(** C8: when the buffered text together with the bytes just read does not
    resolve to three integers, [readData] shows no dialog and changes
    nothing but its buffer, which it empties: the three displays keep the
    last sample, the offsets and the capture side are untouched. *)
Theorem malformed_frame_is_discarded bytes w :
  ~ resolvesToThreeIntegers (buffer w ++ bytes) ->
  fst (step (ReadyRead bytes) w) = [] /\
  ui (readData bytes w) = ui w /\
  offsets (readData bytes w) = offsets w /\
  capture (readData bytes w) = capture w /\
  set_buffer EmptyString (readData bytes w) = set_buffer EmptyString w.
Proof.
  intros Hr.
  assert (Hn : parseFrame (buffer w ++ bytes) = None).
  { destruct (parseFrame (buffer w ++ bytes)) eqn:E; [| reflexivity].
    exfalso. apply Hr, parseFrame_resolves. eauto. }
  pose proof (readData_discards bytes w Hn) as Hd.
  split; [reflexivity |]. split; [| split; [| split]].
  - change (ui (set_buffer EmptyString (readData bytes w)) = ui w). by rewrite Hd.
  - change (offsets (set_buffer EmptyString (readData bytes w)) = offsets w).
    by rewrite Hd.
  - apply capture_readData.
  - exact Hd.
Qed.

Lemma malformed_frame_witness :
  let w := run [BtnOpenPort "COM3" true; ReadyRead "1,2,3"] initial in
  displayed w = (1, 2, 3) /\
  readData "12,ab,7" w = w.
Proof.
  intros w. split; [reflexivity |].
  destruct (malformed_frame_is_discarded "12,ab,7" w) as (_ & _ & _ & _ & H).
  - apply parseFrame_None. reflexivity.
  - exact H.
Defined.




(** C10, as the specification words it, fails on the code: after Zero the
    displays change without any frame being parsed when the sensor port is
    closed or opened ([resetValues] shows 0 on all three). *)
Lemma zero_then_port_counterexample :
  let w := run [BtnOpenPort "COM3" true; ReadyRead "10,20,30"; BtnZero] initial in
  displayed w = (10, 20, 30) /\
  offsets w = (10, 20, 30) /\
  displayed (run [BtnClosPort] w) = (0, 0, 0) /\
  displayed (run [BtnOpenPort "COM3" true] w) = (0, 0, 0) /\
  displayed (run [PicoButton "COM4" true; BtnOpenPort "COM5" false] w) = (0, 0, 0).
Proof. cbv zeta. repeat split; vm_compute; reflexivity. Qed.

(** C10, amended: pressing Zero changes the three offsets and nothing else,
    the displays included. After it the displays keep their values through
    every run of events in which no frame resolves and the sensor port is
    neither opened nor closed; the next frame that resolves shows its
    readings less the new offsets. In any window an event changes the
    displays only if it is a frame that resolves, or the opening or closing
    of the sensor port, which sets displays and offsets to 0. *)
Theorem zero_leaves_displays_until_frame_or_port w :
  let w' := on_btnZero_clicked w in
  (ui w' = ui w /\ _serialPort w' = _serialPort w /\ Pico_Port w' = Pico_Port w /\
   csvFile w' = csvFile w /\ csvRunning w' = csvRunning w /\
   csvTimer w' = csvTimer w /\ buffer w' = buffer w /\ timers w' = timers w /\
   disk w' = disk w /\ picoWire w' = picoWire w) /\
  offsets w' = (zeroed (zeroBotLeft w) (botLeftNum (ui w)),
                zeroed (zeroTopLeft w) (topLeftNum (ui w)),
                zeroed (zeroTopRight w) (topRightNum (ui w))) /\
  (forall zero shown,
      Int.min_int <= zero + shown <= Int.max_int -> zeroed zero shown = zero + shown) /\
  (forall es, quietRun es w' -> displayed (run es w') = displayed w) /\
  (forall e v,
      displayed (snd (step e v)) <> displayed v ->
      match e with
      | ReadyRead bytes => resolvesToThreeIntegers (buffer v ++ bytes)
      | BtnOpenPort _ _ | BtnClosPort =>
          displayed (snd (step e v)) = (0, 0, 0) /\
          offsets (snd (step e v)) = (0, 0, 0)
      | _ => False
      end) /\
  (forall bytes p botLeft topLeft topRight,
      _serialPort w = Some p -> portIsOpen p = true ->
      parseFrame (buffer w ++ bytes) = Some (botLeft, topLeft, topRight) ->
      displayed (readData bytes w') =
        (Int.wrap (botLeft - zeroBotLeft w'),
         Int.wrap (topLeft - zeroTopLeft w'),
         Int.wrap (topRight - zeroTopRight w'))).
Proof.
  intros w'. split; [| split; [| split; [| split; [| split]]]].
  - repeat split; reflexivity.
  - reflexivity.
  - exact zeroed_in_range.
  - intros es Hq. rewrite (displayed_run es w' Hq). reflexivity.
  - intros e v Hne.
    assert (Hquiet : quietEvent e v -> False).
    { intros Hq. apply Hne. by apply displayed_step. }
    destruct e; cbn [quietEvent] in Hquiet; try (by apply Hquiet).
    + cbn [step snd]. unfold on_btnOpenPort_clicked. destruct openOk; by split.
    + cbn [step snd] in *. unfold on_btnClosPort_clicked in *.
      destruct v as [u sp pp f rn tm ztl ztr zbl buf ts dk pw].
      destruct sp, pp; fields; try (by split); by destruct Hne.
    + destruct (parseFrame (buffer v ++ bytes)) eqn:E.
      * apply parseFrame_resolves. eauto.
      * exfalso. apply Hquiet. by apply parseFrame_None.
  - intros bytes p bl tl tr Hp Ho Hf.
    rewrite (readData_parse bytes w' p Hp Ho).
    change (buffer w') with (buffer w). rewrite Hf. reflexivity.
Qed.

(** * Further properties of the window *)

(** ** More on what each slot leaves alone *)

(** What stop leaves alone besides the fields of [stop_fields]. *)
Lemma stop_rest w :
  buffer (on_btnStop_clicked w) = buffer w /\
  picoWire (on_btnStop_clicked w) = picoWire w /\
  _serialPort (on_btnStop_clicked w) = _serialPort w /\
  Pico_Port (on_btnStop_clicked w) = Pico_Port w.
Proof.
  unfold on_btnStop_clicked, stopCsvRecording, csvFile_close, onTimer.
  destruct w as [u sp pp [fn op] rn tm ztl ztr zbl buf ts dk pw].
  destruct tm, op; fields; repeat split; reflexivity.
Qed.

(** What a counted tick does to the fields [count_fields] leaves out. *)
Lemma count_rest v i now w :
  let w' := progressBar_setValue v
              (onTimer i QTimer_count (picoTrigger (writeCsvData now w))) in
  buffer w' = buffer w /\
  _serialPort w' = _serialPort w /\
  Pico_Port w' = Pico_Port w /\
  picoWire w' = (if picoIsOpen w then picoWire w ++ ["1"%char] else picoWire w) /\
  progressValue (ui w') = v /\
  progressMaximum (ui w') = progressMaximum (ui w).
Proof.
  unfold progressBar_setValue, onTimer, picoTrigger, writeCsvData, csvStream_write,
    picoIsOpen.
  destruct w as [u sp pp [fn op] rn tm ztl ztr zbl buf ts dk pw].
  destruct rn, op, pp as [[pn []] |]; fields; cbn [portIsOpen]; fields;
    repeat split; reflexivity.
Qed.

(** ** The read buffer *)

Lemma buffer_step e w :
  buffer w = EmptyString -> buffer (snd (step e w)) = EmptyString.
Proof.
  intros Hb. destruct e; cbn [step snd].
  - destruct (Qlt_le_dec 0 fps) as [Hf | Hf];
      [destruct (Qlt_le_dec 0 duration) as [Hd | Hd] |].
    + destruct openOk;
        [rewrite start_ok by assumption | rewrite start_failed by assumption];
        exact Hb.
    + by rewrite start_invalid by auto.
    + by rewrite start_invalid by auto.
  - by destruct (stop_rest w) as (-> & _).
  - unfold on_btnOpenPort_clicked. destruct openOk; exact Hb.
  - unfold on_btnClosPort_clicked.
    destruct w as [u sp pp f rn tm ztl ztr zbl buf ts dk pw].
    destruct sp, pp; exact Hb.
  - unfold on_PicoButton_clicked. destruct openOk; exact Hb.
  - exact Hb.
  - unfold readData. destruct (_serialPort w) as [p |]; [| exact Hb].
    destruct (negb (portIsOpen p)); [exact Hb | reflexivity].
  - destruct (timeout_cases timer now w)
      as [-> | [(t & _ & _ & _ & ->) | (t & _ & _ & _ & ->)]].
    + exact Hb.
    + by destruct (stop_rest w) as (-> & _).
    + by destruct (count_rest (framesCaptured t + 1) timer now w) as (-> & _).
Qed.

Lemma reachable_buffer w : reachable w -> buffer w = EmptyString.
Proof.
  induction 1 as [| e w _ IH]; [reflexivity | by apply buffer_step].
Qed.

(** ** Arithmetic of [int] *)

Lemma toInt_in_range s v :
  QString.toInt s = Some v -> Int.min_int <= v <= Int.max_int.
Proof.
  unfold QString.toInt. intros H. apply in_range_bounds.
  repeat case_match; simplify_eq; assumption.
Qed.

Lemma parseFrame_in_range data botLeft topLeft topRight :
  parseFrame data = Some (botLeft, topLeft, topRight) ->
  Int.min_int <= botLeft <= Int.max_int /\
  Int.min_int <= topLeft <= Int.max_int /\
  Int.min_int <= topRight <= Int.max_int.
Proof.
  unfold parseFrame. intros H.
  destruct (length _ =? 3)%nat; [| discriminate H].
  destruct (QString.toInt (nth 0 _ _)) as [a |] eqn:Ea; [| discriminate H].
  destruct (QString.toInt (nth 1 _ _)) as [b |] eqn:Eb; [| discriminate H].
  destruct (QString.toInt (nth 2 _ _)) as [c |] eqn:Ec; [| discriminate H].
  injection H as <- <- <-.
  split; [| split]; eapply toInt_in_range; eassumption.
Qed.

(** A frame, Zero, and the same frame again, when the first difference is
    an [int]: the offset becomes the reading and the display 0. *)
Lemma zero_cancels a z :
  Int.min_int <= a <= Int.max_int -> Int.min_int <= a - z <= Int.max_int ->
  Int.wrap (a - zeroed z (Int.wrap (a - z))) = 0.
Proof.
  intros Ha Hd. rewrite (wrap_small (a - z)) by assumption.
  rewrite zeroed_in_range by lia.
  replace (a - (z + (a - z))) with 0 by lia. reflexivity.
Qed.

(** The sums [z + k d] for [k] between 1 and [n] lie between the first and
    the last of them. *)
Lemma sums_between z d n k :
  Int.min_int <= z + d <= Int.max_int ->
  Int.min_int <= z + n * d <= Int.max_int ->
  1 <= k <= n ->
  Int.min_int <= z + k * d <= Int.max_int.
Proof.
  intros H1 Hn Hk. destruct (Z_le_gt_dec 0 d); nia.
Qed.

Lemma zeroed_iter z d n :
  Int.min_int <= z + d <= Int.max_int ->
  Int.min_int <= z + Z.of_nat (S n) * d <= Int.max_int ->
  forall m, (m <= n)%nat ->
    Nat.iter (S m) (fun zero => zeroed zero d) z = z + Z.of_nat (S m) * d.
Proof.
  intros H1 Hn. induction m as [| m IH]; intros Hm.
  - change (zeroed z d = z + Z.of_nat 1 * d).
    rewrite zeroed_in_range by assumption. lia.
  - change (Nat.iter (S (S m)) (fun zero => zeroed zero d) z)
      with (zeroed (Nat.iter (S m) (fun zero => zeroed zero d) z) d).
    rewrite IH by lia.
    pose proof (sums_between z d (Z.of_nat (S n)) (Z.of_nat (S (S m))) H1 Hn
                  ltac:(lia)) as Hs.
    rewrite zeroed_in_range by lia. lia.
Qed.

Lemma set_buffer_id w : buffer w = EmptyString -> set_buffer EmptyString w = w.
Proof. destruct w. cbn. by intros ->. Qed.

(** X1: in every reachable window at most one timer is armed, and it is the
    one [csvTimer] points to; an open file implies that recording is on,
    recording implies an armed timer, and so a window without an armed
    timer is idle. *)
Theorem reachable_one_armed_timer w :
  reachable w ->
  (forall i j ti tj,
      timers w !! i = Some ti -> isActive ti = true ->
      timers w !! j = Some tj -> isActive tj = true -> i = j) /\
  (forall i t, timers w !! i = Some t -> isActive t = true -> csvTimer w = Some i) /\
  (isOpen (csvFile w) = true -> csvRunning w = true) /\
  (csvRunning w = true ->
   exists j t, csvTimer w = Some j /\ timers w !! j = Some t /\ isActive t = true) /\
  ((forall j t, timers w !! j = Some t -> isActive t = false) -> Idle w).
Proof.
  intros Hre. pose proof (reachable_WF w Hre) as [H1 H2 H3 H4].
  repeat split.
  - intros i j ti tj Hi Hai Hj Haj.
    pose proof (H1 i ti Hi Hai). pose proof (H1 j tj Hj Haj). congruence.
  - exact H1.
  - exact H3.
  - exact H2.
  - assumption.
  - destruct (isOpen (csvFile w)) eqn:Ho; [| reflexivity].
    destruct (H2 (H3 eq_refl)) as (j & t & _ & Hj & Ha).
    pose proof (H j t Hj). congruence.
Qed.

Lemma reachable_one_armed_timer_witness :
  let w := run [BtnStart 10 1 "Desktop" "2024-01-01_00-00-00" true;
                TimerFired 0 "t1";
                BtnStart 5 2 "Desktop" "2024-01-01_00-00-07" true] initial in
  csvTimer w = Some 1%nat /\
  (forall i t, timers w !! i = Some t -> isActive t = true -> csvTimer w = Some i).
Proof.
  intros w.
  destruct (reachable_one_armed_timer w (reachable_run _ initial reachable_initial))
    as (_ & H & _).
  split; [reflexivity | exact H].
Defined.

(** X2: [readData] empties its buffer on every call, so in a reachable
    window with the sensor port open its effect depends on the bytes of that
    one read only; a frame that arrives in two reads, neither of which
    resolves on its own, is lost and the window is left as it was. *)
Theorem readData_keeps_no_partial_frame w p :
  reachable w -> _serialPort w = Some p -> portIsOpen p = true ->
  (forall bytes,
      readData bytes w =
        match parseFrame bytes with
        | Some (botLeft, topLeft, topRight) =>
            display (Int.wrap (botLeft - zeroBotLeft w))
                    (Int.wrap (topLeft - zeroTopLeft w))
                    (Int.wrap (topRight - zeroTopRight w)) w
        | None => w
        end) /\
  (forall first second,
      parseFrame first = None -> parseFrame second = None ->
      readData second (readData first w) = w).
Proof.
  intros Hre Hp Ho.
  pose proof (reachable_buffer w Hre) as Hb.
  assert (Hread : forall bytes,
      readData bytes w =
        match parseFrame bytes with
        | Some (botLeft, topLeft, topRight) =>
            display (Int.wrap (botLeft - zeroBotLeft w))
                    (Int.wrap (topLeft - zeroTopLeft w))
                    (Int.wrap (topRight - zeroTopRight w)) w
        | None => w
        end).
  { intros bytes. rewrite (readData_parse bytes w p Hp Ho), Hb.
    change (EmptyString ++ bytes)%string with bytes.
    destruct (parseFrame bytes) as [[[bl tl] tr] |].
    - unfold display. destruct w. cbn in *. by subst.
    - by apply set_buffer_id. }
  split; [exact Hread |].
  intros first second H1 H2. rewrite (Hread first), H1, (Hread second), H2.
  reflexivity.
Qed.

Lemma readData_keeps_no_partial_frame_witness :
  let w := run [BtnOpenPort "COM3" true; ReadyRead "1,2,3"] initial in
  parseFrame ("12,3" ++ "4,56") = Some (12, 34, 56) /\
  readData "4,56" (readData "12,3" w) = w.
Proof.
  intros w. split; [reflexivity |].
  destruct (readData_keeps_no_partial_frame w (mkQSerialPort "COM3" true)
              (reachable_run _ initial reachable_initial) eq_refl eq_refl)
    as (_ & H).
  apply H; reflexivity.
Defined.

(** X4: after a frame has been shown (each reading less its offset being an
    [int]), pressing Zero and receiving the same frame again shows 0 on all
    three displays, whatever the offsets were before. *)
Theorem zero_then_same_frame_displays_zero bytes w p botLeft topLeft topRight :
  _serialPort w = Some p -> portIsOpen p = true ->
  buffer w = EmptyString ->
  parseFrame bytes = Some (botLeft, topLeft, topRight) ->
  Int.min_int <= botLeft - zeroBotLeft w <= Int.max_int ->
  Int.min_int <= topLeft - zeroTopLeft w <= Int.max_int ->
  Int.min_int <= topRight - zeroTopRight w <= Int.max_int ->
  displayed (readData bytes (on_btnZero_clicked (readData bytes w))) = (0, 0, 0).
Proof.
  intros Hp Ho Hb Hf H1 H2 H3.
  destruct (parseFrame_in_range _ _ _ _ Hf) as (R1 & R2 & R3).
  assert (E1 : readData bytes w =
               set_buffer EmptyString
                 (display (Int.wrap (botLeft - zeroBotLeft w))
                          (Int.wrap (topLeft - zeroTopLeft w))
                          (Int.wrap (topRight - zeroTopRight w)) w)).
  { rewrite (readData_parse bytes w p Hp Ho), Hb.
    change (EmptyString ++ bytes)%string with bytes. by rewrite Hf. }
  rewrite E1. clear E1.
  set (v := on_btnZero_clicked _).
  rewrite (readData_parse bytes v p Hp Ho).
  change (buffer v) with EmptyString.
  change (EmptyString ++ bytes)%string with bytes. rewrite Hf.
  subst v. unfold displayed, display, on_btnZero_clicked. fields.
  by rewrite !zero_cancels.
Qed.

(** Without the condition the same frame need not show 0: with offsets -1 a
    reading of 2147483647 displays -2147483648, Zero converts
    -2147483649.0, which is no [int], and the frame then displays -1. *)
Example zero_then_same_frame_out_of_range :
  let w := run [BtnOpenPort "COM3" true; ReadyRead "-1,-1,-1"; BtnZero] initial in
  let w1 := readData "2147483647,2147483647,2147483647" w in
  let w2 := on_btnZero_clicked w1 in
  offsets w = (-1, -1, -1) /\
  displayed w1 = (Int.min_int, Int.min_int, Int.min_int) /\
  offsets w2 = (Int.min_int, Int.min_int, Int.min_int) /\
  displayed (readData "2147483647,2147483647,2147483647" w2) = (-1, -1, -1).
Proof. repeat split; vm_compute; reflexivity. Qed.

Lemma zero_then_same_frame_witness :
  let w := snd (on_btnOpenPort_clicked "COM3" true initial) in
  displayed (readData "512,-40,2147483647"
               (on_btnZero_clicked (readData "512,-40,2147483647" w))) = (0, 0, 0).
Proof.
  intros w.
  apply (zero_then_same_frame_displays_zero "512,-40,2147483647" w
           (mkQSerialPort "COM3" true) 512 (-40) 2147483647);
    try reflexivity; vm_compute; split; discriminate.
Defined.

Lemma ui_zero_iter n w : ui (Nat.iter n on_btnZero_clicked w) = ui w.
Proof. induction n as [| n IH]; [reflexivity | exact IH]. Qed.

Lemma offsets_zero_iter n w :
  offsets (Nat.iter n on_btnZero_clicked w) =
  (Nat.iter n (fun zero => zeroed zero (botLeftNum (ui w))) (zeroBotLeft w),
   Nat.iter n (fun zero => zeroed zero (topLeftNum (ui w))) (zeroTopLeft w),
   Nat.iter n (fun zero => zeroed zero (topRightNum (ui w))) (zeroTopRight w)).
Proof.
  induction n as [| n IH]; [reflexivity |].
  change (Nat.iter (S n) on_btnZero_clicked w)
    with (on_btnZero_clicked (Nat.iter n on_btnZero_clicked w)).
  pose proof (ui_zero_iter n w) as Hu.
  remember (Nat.iter n on_btnZero_clicked w) as v eqn:Ev. clear Ev.
  unfold offsets in IH. injection IH as Eb Et Er.
  unfold offsets, on_btnZero_clicked. fields. rewrite Eb, Et, Er, Hu. reflexivity.
Qed.

(** X5: pressing Zero n+1 times with no frame in between leaves the
    displays as they are and adds the displayed value n+1 times to each
    offset, provided the first and the last of these sums are [int]s on
    each axis (then all of them are). *)
Theorem zero_pressed_repeatedly n w :
  let w' := Nat.iter (S n) on_btnZero_clicked w in
  let last zero shown := zero + Z.of_nat (S n) * shown in
  Int.min_int <= zeroBotLeft w + botLeftNum (ui w) <= Int.max_int ->
  Int.min_int <= zeroTopLeft w + topLeftNum (ui w) <= Int.max_int ->
  Int.min_int <= zeroTopRight w + topRightNum (ui w) <= Int.max_int ->
  Int.min_int <= last (zeroBotLeft w) (botLeftNum (ui w)) <= Int.max_int ->
  Int.min_int <= last (zeroTopLeft w) (topLeftNum (ui w)) <= Int.max_int ->
  Int.min_int <= last (zeroTopRight w) (topRightNum (ui w)) <= Int.max_int ->
  ui w' = ui w /\
  offsets w' =
    (last (zeroBotLeft w) (botLeftNum (ui w)),
     last (zeroTopLeft w) (topLeftNum (ui w)),
     last (zeroTopRight w) (topRightNum (ui w))).
Proof.
  cbv zeta. intros B1 T1 R1 Bn Tn Rn. split; [apply ui_zero_iter |].
  rewrite offsets_zero_iter.
  rewrite (zeroed_iter _ _ n B1 Bn n), (zeroed_iter _ _ n T1 Tn n),
    (zeroed_iter _ _ n R1 Rn n) by lia.
  reflexivity.
Qed.

Lemma zero_pressed_repeatedly_witness :
  let w := run [BtnOpenPort "COM3" true; ReadyRead "10,-20,1000000000"] initial in
  offsets (Nat.iter 2 on_btnZero_clicked w) = (20, -40, 2000000000) /\
  offsets (Nat.iter 3 on_btnZero_clicked w) = (30, -60, Int.min_int).
Proof.
  intros w. split; [| vm_compute; reflexivity].
  apply (zero_pressed_repeatedly 1 w
           ltac:(vm_compute; split; discriminate) ltac:(vm_compute; split; discriminate)
           ltac:(vm_compute; split; discriminate) ltac:(vm_compute; split; discriminate)
           ltac:(vm_compute; split; discriminate) ltac:(vm_compute; split; discriminate)).
Defined.

(** ** Frames and commas *)

Lemma length_split sep s :
  length (QString.split sep s) = S (countChar sep s).
Proof.
  induction s as [| c s IH]; [reflexivity |]. cbn [QString.split countChar].
  destruct (Ascii.eqb c sep).
  - cbn [length]. by rewrite IH.
  - destruct (QString.split sep s); cbn [length] in *; lia.
Qed.

(** X6: when the trimmed text does not hold exactly two commas (two frames
    in one read, or a frame cut short), no frame is extracted, the displays
    keep their values and only the buffer is emptied. *)
Theorem frame_without_two_commas_is_dropped bytes w :
  countChar ","%char (QString.trimmed (buffer w ++ bytes)) <> 2%nat ->
  parseFrame (buffer w ++ bytes) = None /\
  displayed (readData bytes w) = displayed w /\
  set_buffer EmptyString (readData bytes w) = set_buffer EmptyString w.
Proof.
  intros Hc.
  assert (Hn : parseFrame (buffer w ++ bytes) = None).
  { unfold parseFrame. rewrite length_split.
    destruct (Nat.eqb_spec (S (countChar "," (QString.trimmed (buffer w ++ bytes)))) 3);
      [lia | reflexivity]. }
  pose proof (readData_discards bytes w Hn) as Hd.
  split; [exact Hn |]. split; [| exact Hd].
  change (displayed (set_buffer EmptyString (readData bytes w)) = displayed w).
  by rewrite Hd.
Qed.

Lemma frame_without_two_commas_witness :
  let w := run [BtnOpenPort "COM3" true; ReadyRead "1,2,3"] initial in
  readData "4,5,6 7,8,9" w = w /\ readData "4,5" w = w.
Proof.
  intros w.
  destruct (frame_without_two_commas_is_dropped "4,5,6 7,8,9" w
              ltac:(vm_compute; discriminate)) as (_ & _ & H1).
  destruct (frame_without_two_commas_is_dropped "4,5" w
              ltac:(vm_compute; discriminate)) as (_ & _ & H2).
  split; [exact H1 | exact H2].
Defined.

(** ** Offsets and raw columns *)

Lemma offsets_step e w :
  notZero e = true -> quietEvent e w -> offsets (snd (step e w)) = offsets w.
Proof.
  destruct e; cbn [notZero quietEvent step snd]; intros Hz Hq; try done.
  - destruct (Qlt_le_dec 0 fps) as [Hf | Hf];
      [destruct (Qlt_le_dec 0 duration) as [Hd | Hd] |].
    + destruct openOk;
        [rewrite start_ok by assumption | rewrite start_failed by assumption];
        reflexivity.
    + by rewrite start_invalid by auto.
    + by rewrite start_invalid by auto.
  - unfold offsets. by destruct (stop_fields w) as (_ & _ & _ & _ & _ & _ & -> & -> & ->).
  - unfold on_PicoButton_clicked. destruct openOk; reflexivity.
  - unfold readData. destruct (_serialPort w) as [p |]; [| reflexivity].
    destruct (negb (portIsOpen p)); [reflexivity |].
    destruct (length _ =? 3)%nat; [| reflexivity].
    repeat case_match; reflexivity.
  - destruct (timeout_cases timer now w)
      as [-> | [(t & _ & _ & _ & ->) | (t & _ & _ & _ & ->)]].
    + reflexivity.
    + unfold offsets.
      by destruct (stop_fields w) as (_ & _ & _ & _ & _ & _ & -> & -> & ->).
    + destruct (count_fields (framesCaptured t + 1) timer now w)
        as (_ & _ & _ & _ & _ & _ & _ & _ & Ha & Hb & Hc).
      unfold offsets. by rewrite Ha, Hb, Hc.
Qed.

Lemma rawColumns_csvRow now w :
  rawColumns (csvRow now w) =
  (topLeftNum (ui w) + zeroTopLeft w, topRightNum (ui w) + zeroTopRight w,
   botLeftNum (ui w) + zeroBotLeft w).
Proof. reflexivity. Qed.

Lemma rawColumns_ext now w w' :
  displayed w' = displayed w -> offsets w' = offsets w ->
  rawColumns (csvRow now w') = rawColumns (csvRow now w).
Proof.
  unfold displayed, offsets. intros [= Ha Hb Hc] [= Hd He Hf].
  rewrite !rawColumns_csvRow. congruence.
Qed.

Lemma sampled_raw i es : forall w raw,
  (forall now, rawColumns (csvRow now w) = raw) ->
  forallb notZero es = true -> quietRun es w ->
  Forall (fun row => rawColumns row = raw) (sampled i es w).
Proof.
  induction es as [| e es IH]; intros w raw Hraw Hz Hq; [constructor |].
  cbn [forallb] in Hz. apply andb_true_iff in Hz. destruct Hz as [Hz Hzs].
  destruct Hq as [Hq Hqs]. cbn [sampled]. apply Forall_app. split.
  - destruct e; cbn [sampleAt]; try constructor.
    destruct (timer =? i)%nat; constructor; [apply Hraw | constructor].
  - apply IH; try assumption. intros now. rewrite <- (Hraw now).
    apply rawColumns_ext; [by apply displayed_step | by apply offsets_step].
Qed.

Example QTextStream_double_examples :
  map QTextStream_double
    [0; -5; 123456; 999999; -999999; 1000000; 1234567; -1234567;
     2147483647; -4294967295; 99999960; 10000000000] =
  ["0"; "-5"; "123456"; "999999"; "-999999"; "1e+06"; "1.23457e+06";
   "-1.23457e+06"; "2.14748e+09"; "-4.29497e+09"; "1e+08"; "1e+10"]%string.
Proof. vm_compute. reflexivity. Qed.

Lemma QTextStream_double_small v :
  Z.abs v < 1000000 -> QTextStream_double v = decimal v.
Proof.
  intros Hv. unfold QTextStream_double.
  destruct (Z.ltb_spec (Z.abs v) 1000000); [reflexivity | lia].
Qed.

(** X3: after a frame is parsed (the subtractions staying within [int]),
    every row sampled by any timer along events that neither press Zero, nor
    open or close the sensor port, nor bring a frame that resolves, has the
    frame's readings in its three "w/o Zero" columns; and when the readings
    are below one million in magnitude the text printed in these columns is
    their decimal numeral. (From one million on the stream prints six
    significant digits: 1234567 as 1.23457e+06.) *)
Theorem raw_columns_hold_until_zero bytes w p botLeft topLeft topRight i es :
  _serialPort w = Some p -> portIsOpen p = true ->
  parseFrame (buffer w ++ bytes) = Some (botLeft, topLeft, topRight) ->
  Int.min_int <= botLeft - zeroBotLeft w <= Int.max_int ->
  Int.min_int <= topLeft - zeroTopLeft w <= Int.max_int ->
  Int.min_int <= topRight - zeroTopRight w <= Int.max_int ->
  forallb notZero es = true -> quietRun es (readData bytes w) ->
  Forall (fun row =>
            rawColumns row = (topLeft, topRight, botLeft) /\
            (Z.abs topLeft < 1000000 -> Z.abs topRight < 1000000 ->
             Z.abs botLeft < 1000000 ->
             rawText row = (decimal topLeft, decimal topRight, decimal botLeft)))
         (sampled i es (readData bytes w)) /\
  QTextStream_double 1234567 = "1.23457e+06"%string.
Proof.
  intros Hp Ho Hf H1 H2 H3 Hz Hq. split; [| vm_compute; reflexivity].
  eapply Forall_impl.
  - apply (sampled_raw i es (readData bytes w) (topLeft, topRight, botLeft));
      try assumption.
    intros now. exact (csvRow_after_frame now bytes w p _ _ _ Hp Ho Hf H1 H2 H3).
  - intros row Hrow. split; [exact Hrow |]. intros Ha Hb Hc.
    unfold rawColumns in Hrow. injection Hrow as E1 E2 E3.
    unfold rawText. rewrite E1, E2, E3.
    by rewrite !QTextStream_double_small.
Qed.

Lemma raw_columns_hold_witness :
  let w := run [BtnOpenPort "COM3" true; ReadyRead "5,5,5"; BtnZero;
                BtnStart 10 1 "Desktop" "2024-01-01_00-00-00" true] initial in
  let es := [TimerFired 0 "t1"; ReadyRead "oops"; TimerFired 0 "t2"; BtnStop] in
  Forall (fun row => rawColumns row = (20, 30, 10) /\
                     rawText row = ("20", "30", "10")%string)
         (sampled 0 es (readData "10,20,30" w)) /\
  map rowText (sampled 0 es (readData "10,20,30" w)) =
    ["t1,15,25,5,20,30,10"; "t2,15,25,5,20,30,10"]%string.
Proof.
  intros w es. split; [| vm_compute; reflexivity].
  destruct (raw_columns_hold_until_zero "10,20,30" w (mkQSerialPort "COM3" true)
           10 20 30 0%nat es) as [H _].
  - reflexivity.
  - reflexivity.
  - reflexivity.
  - vm_compute. split; discriminate.
  - vm_compute. split; discriminate.
  - vm_compute. split; discriminate.
  - reflexivity.
  - cbn [quietRun quietEvent es]. repeat split.
    apply parseFrame_None. vm_compute. reflexivity.
  - eapply Forall_impl; [exact H |].
    intros row [Hr Ht]. split; [exact Hr |]. apply Ht; reflexivity.
Defined.

(** ** The disk *)

Lemma disk_writeCsvData now w :
  disk (writeCsvData now w) = disk w \/
  isOpen (csvFile w) = true /\
  disk (writeCsvData now w) =
    <[fileName (csvFile w) := csvLines w ++ [DataLine (csvRow now w)]]> (disk w).
Proof.
  unfold writeCsvData, csvStream_write.
  destruct (negb (csvRunning w) || negb (isOpen (csvFile w))); [by left |].
  destruct (isOpen (csvFile w)); [by right | by left].
Qed.

(** One event changes the disk at most at the name the file object is bound
    to afterwards, and changes nothing unless the file is then open. *)
Lemma disk_step e w :
  disk (snd (step e w)) = disk w \/
  isOpen (csvFile (snd (step e w))) = true /\
  exists lines,
    disk (snd (step e w)) =
      <[fileName (csvFile (snd (step e w))) := lines]> (disk w).
Proof.
  assert (Hsame : forall w', capture w' = capture w ->
            disk w' = disk w \/
            isOpen (csvFile w') = true /\
            exists lines, disk w' = <[fileName (csvFile w') := lines]> (disk w)).
  { intros w' [= _ _ _ _ E]. by left. }
  destruct e; cbn [step snd].
  - destruct (Qlt_le_dec 0 fps) as [Hf | Hf];
      [destruct (Qlt_le_dec 0 duration) as [Hd | Hd] |].
    + destruct openOk;
        [rewrite start_ok by assumption | rewrite start_failed by assumption];
        cbn [snd disk csvFile fileName isOpen]; [right | by left].
      split; [reflexivity | by eexists].
    + rewrite start_invalid by auto. by left.
    + rewrite start_invalid by auto. by left.
  - left. by destruct (stop_fields w) as (_ & _ & _ & _ & -> & _).
  - apply Hsame, capture_openPort.
  - apply Hsame, capture_closPort.
  - apply Hsame, capture_pico.
  - apply Hsame, capture_zero.
  - apply Hsame, capture_readData.
  - destruct (timeout_cases timer now w)
      as [-> | [(t & _ & _ & _ & ->) | (t & _ & _ & _ & ->)]].
    + by left.
    + left. by destruct (stop_fields w) as (_ & _ & _ & _ & -> & _).
    + destruct (count_fields (framesCaptured t + 1) timer now w)
        as (_ & _ & _ & -> & -> & _).
      destruct (disk_writeCsvData now w) as [-> | [Ho ->]]; [by left | right].
      split; [exact Ho | by eexists].
Qed.

(** X9: one event changes no file on disk other than the one the file
    object is bound to after the event. *)
Theorem other_files_are_never_touched e w name :
  name <> fileName (csvFile (snd (step e w))) ->
  disk (snd (step e w)) !! name = disk w !! name.
Proof.
  intros Hne. destruct (disk_step e w) as [-> | (_ & lines & ->)]; [reflexivity |].
  by rewrite lookup_insert_ne.
Qed.

Lemma other_files_witness :
  let w := run [BtnStart 10 1 "Desktop" "2024-01-01_00-00-00" true;
                TimerFired 0 "t1"; BtnStop;
                BtnStart 10 1 "Desktop" "2024-01-01_00-00-09" true] initial in
  disk (snd (step (TimerFired 1 "t2") w)) !! "Desktop/sensor_data_2024-01-01_00-00-00.csv" =
  Some [TextLine csvHeader; DataLine (mkCsvRow "t1" 0 0 0 0 0 0)].
Proof.
  intros w.
  rewrite (other_files_are_never_touched (TimerFired 1 "t2") w
             "Desktop/sensor_data_2024-01-01_00-00-00.csv").
  - vm_compute. reflexivity.
  - vm_compute. discriminate.
Defined.

(** X11: while the file is closed and no start opens one, nothing is
    written to disk and the file stays closed, whatever else happens
    (failed or rejected starts, timer ticks, stops, frames, Zero, ports). *)
Theorem nothing_is_written_without_an_open_file es : forall w,
  isOpen (csvFile w) = false -> forallb opensNoFile es = true ->
  disk (run es w) = disk w /\ isOpen (csvFile (run es w)) = false.
Proof.
  induction es as [| e es IH]; intros w Ho Hes; [by split |].
  cbn [forallb] in Hes. apply andb_true_iff in Hes. destruct Hes as [He Hes].
  assert (Hstep : disk (snd (step e w)) = disk w /\
                  isOpen (csvFile (snd (step e w))) = false).
  { assert (Hsame : forall w', capture w' = capture w ->
              disk w' = disk w /\ isOpen (csvFile w') = false).
    { intros w' [= _ _ _ Ef Ed]. by rewrite Ef, Ed. }
    destruct e; cbn [step snd opensNoFile] in *.
    - destruct (Qlt_le_dec 0 fps) as [Hf | Hf];
        [destruct (Qlt_le_dec 0 duration) as [Hd | Hd] |].
      + destruct openOk; [discriminate |].
        rewrite start_failed by assumption. by split.
      + rewrite start_invalid by auto. by split.
      + rewrite start_invalid by auto. by split.
    - destruct (stop_fields w) as (_ & _ & _ & -> & -> & _). by split.
    - apply Hsame, capture_openPort.
    - apply Hsame, capture_closPort.
    - apply Hsame, capture_pico.
    - apply Hsame, capture_zero.
    - apply Hsame, capture_readData.
    - destruct (timeout_cases timer now w)
        as [-> | [(t & _ & _ & _ & ->) | (t & _ & _ & _ & ->)]].
      + by split.
      + destruct (stop_fields w) as (_ & _ & _ & -> & -> & _). by split.
      + destruct (count_fields (framesCaptured t + 1) timer now w)
          as (_ & _ & _ & -> & -> & _).
        split; [| exact Ho]. unfold writeCsvData. by rewrite Ho, orb_true_r. }
  destruct Hstep as [Hd Ho']. cbn [run].
  destruct (IH _ Ho' Hes) as [Hd2 Ho2]. split; [congruence | exact Ho2].
Qed.

Lemma nothing_is_written_witness :
  let w := run [PicoButton "COM4" true] initial in
  let es := [BtnStart 10 1 "Desktop" "2024-01-01_00-00-00" false;
             TimerFired 0 "t1"; TimerFired 0 "t2"; BtnStop] in
  disk (run es w) = ∅ /\ picoWire (run es w) = ["1"%char; "1"%char].
Proof.
  intros w es.
  destruct (nothing_is_written_without_an_open_file es w eq_refl eq_refl) as [H _].
  split; [exact H | reflexivity].
Defined.

(** X10: a start (valid, file opened) during a session leaves the earlier
    session's file with its header and rows when the new file name differs,
    and with the header alone when the name is the same (the name has a
    resolution of one second and the file is opened write-only). *)
Theorem restart_keeps_or_truncates_earlier_file
    w fps duration desktop stamp i total k rows :
  (0 < fps)%Q -> (0 < duration)%Q ->
  Session i total k rows w ->
  let w' := snd (on_btnStart_clicked fps duration desktop stamp true w) in
  (fileName (csvFile w) <> csvPath desktop stamp ->
   disk w' !! fileName (csvFile w) = Some (TextLine csvHeader :: map DataLine rows)) /\
  (fileName (csvFile w) = csvPath desktop stamp ->
   disk w' !! fileName (csvFile w) = Some [TextLine csvHeader]).
Proof.
  intros Hf Hd Hs w'. subst w'. rewrite start_ok by assumption. cbn [snd disk].
  pose proof (session_lines _ _ _ _ _ Hs) as Hl. unfold csvLines in Hl.
  split.
  - intros Hne. rewrite lookup_insert_ne by done.
    destruct (disk w !! fileName (csvFile w)) as [lines |] eqn:E;
      simpl in Hl; [by rewrite Hl | discriminate].
  - intros ->. by rewrite lookup_insert_eq.
Qed.

Lemma restart_keeps_or_truncates_witness :
  let w := run [BtnStart 10 1 "Desktop" "2024-01-01_00-00-00" true;
                TimerFired 0 "t1"; TimerFired 0 "t2"] initial in
  let old := "Desktop/sensor_data_2024-01-01_00-00-00.csv"%string in
  disk (snd (on_btnStart_clicked 5 2 "Desktop" "2024-01-01_00-00-07" true w)) !! old =
    Some [TextLine csvHeader;
          DataLine (mkCsvRow "t1" 0 0 0 0 0 0);
          DataLine (mkCsvRow "t2" 0 0 0 0 0 0)] /\
  disk (snd (on_btnStart_clicked 5 2 "Desktop" "2024-01-01_00-00-00" true w)) !! old =
    Some [TextLine csvHeader].
Proof.
  intros w old.
  assert (Hs : Session 0 10 2 [mkCsvRow "t1" 0 0 0 0 0 0; mkCsvRow "t2" 0 0 0 0 0 0] w).
  { split; try reflexivity. by exists 100, false. }
  destruct (restart_keeps_or_truncates_earlier_file
              w 5 2 "Desktop" "2024-01-01_00-00-07" _ _ _ _ eq_refl eq_refl Hs)
    as [H1 _].
  destruct (restart_keeps_or_truncates_earlier_file
              w 5 2 "Desktop" "2024-01-01_00-00-00" _ _ _ _ eq_refl eq_refl Hs)
    as [_ H2].
  split; [apply H1; vm_compute; discriminate | apply H2; reflexivity].
Defined.

(** ** Along a session *)

Lemma session_own_tick i total k rows now w :
  Session i total k rows w -> k < total ->
  timeout i now w =
    progressBar_setValue (k + 1)
      (onTimer i QTimer_count (picoTrigger (writeCsvData now w))).
Proof.
  intros [Hc (ms & dl & Ht) Hr Ho Hl] Hk.
  unfold timeout, timerLambda. rewrite Ht. fields.
  destruct (Z.leb_spec total k) as [? | _]; [lia | reflexivity].
Qed.

Lemma session_other_tick i total k rows j now w :
  WF w -> Session i total k rows w -> j <> i -> timeout j now w = w.
Proof.
  intros Hwf Hs Hne. apply timeout_inactive. intros t Ht.
  destruct (isActive t) eqn:Ha; [| reflexivity].
  pose proof (wf_active w Hwf j t Ht Ha) as Hc.
  rewrite (session_timer _ _ _ _ _ Hs) in Hc. congruence.
Qed.

(** What the port, zero and frame slots leave alone of the progress bar and
    of the Pico link. *)
Lemma side_fields e w :
  match e with
  | BtnStart _ _ _ _ _ | BtnStop | TimerFired _ _ => True
  | _ =>
      progressValue (ui (snd (step e w))) = progressValue (ui w) /\
      progressMaximum (ui (snd (step e w))) = progressMaximum (ui w) /\
      (keepsPico e = true ->
       Pico_Port (snd (step e w)) = Pico_Port w /\
       picoWire (snd (step e w)) = picoWire w)
  end.
Proof.
  destruct e; try exact I; cbn [step snd keepsPico].
  - unfold on_btnOpenPort_clicked. destruct openOk; repeat split; reflexivity.
  - unfold on_btnClosPort_clicked.
    destruct w as [u sp pp f rn tm ztl ztr zbl buf ts dk pw].
    destruct sp, pp; repeat split; try reflexivity; discriminate.
  - unfold on_PicoButton_clicked. destruct openOk; repeat split; try reflexivity;
      discriminate.
  - repeat split; reflexivity.
  - unfold readData. destruct (_serialPort w) as [p |]; [| by repeat split].
    destruct (negb (portIsOpen p)); [by repeat split |].
    destruct (length _ =? 3)%nat; [| by repeat split].
    repeat case_match; repeat split; reflexivity.
Qed.

(** Induction along the events of a session. *)
Lemma session_events_inv i total (P : Z -> MainWindow -> Prop) (ok : Event -> bool) :
  (forall k rows e w,
      WF w -> Session i total k rows w -> keepsSession e = true -> ok e = true ->
      k + Z.of_nat (length (sampleAt i e w)) <= total -> P k w ->
      P (k + Z.of_nat (length (sampleAt i e w))) (snd (step e w))) ->
  forall es k rows w,
    WF w -> Session i total k rows w ->
    forallb keepsSession es = true -> forallb ok es = true ->
    k + Z.of_nat (tickCount i es) <= total -> P k w ->
    P (k + Z.of_nat (tickCount i es)) (run es w).
Proof.
  intros Hstep. induction es as [| e es IH]; intros k rows w Hwf Hs Hk Hok Hle HP.
  - cbn [tickCount run Z.of_nat]. by rewrite Z.add_0_r.
  - cbn [forallb] in Hk, Hok.
    apply andb_true_iff in Hk. destruct Hk as [Hk Hks].
    apply andb_true_iff in Hok. destruct Hok as [Hok Hoks].
    assert (Hn : tickCount i (e :: es) =
                 (length (sampleAt i e w) + tickCount i es)%nat).
    { destruct e; try reflexivity. cbn [tickCount sampleAt].
      by destruct (timer =? i)%nat. }
    rewrite Hn in *. rewrite Nat2Z.inj_add in *.
    assert (Hlt : sampleAt i e w <> [] -> k < total).
    { intros Hne. destruct (sampleAt i e w); [done | cbn [length] in Hle; lia]. }
    pose proof (session_step i total k rows e w Hwf Hs Hk Hlt) as Hs'.
    pose proof (Hstep k rows e w Hwf Hs Hk Hok ltac:(lia) HP) as HP'.
    specialize (IH _ _ _ (WF_step e w Hwf) Hs' Hks Hoks ltac:(lia) HP').
    cbn [run]. rewrite Z.add_assoc. exact IH.
Qed.

(** X8: during a session the progress bar's maximum is the frame budget the
    start computed (the program's [qRound] of the binary64 product) and its
    value the number of rows written so far, whatever events other than
    Start and Stop are interleaved. *)
Theorem progress_counts_the_rows w fps duration desktop stamp es :
  reachable w -> (0 < fps)%Q -> (0 < duration)%Q ->
  forallb keepsSession es = true ->
  let w1 := snd (on_btnStart_clicked fps duration desktop stamp true w) in
  let i := length (timers w) in
  Z.of_nat (tickCount i es) <= qRound (Double.mul fps duration) ->
  progressMaximum (ui (run es w1)) = qRound (Double.mul fps duration) /\
  progressValue (ui (run es w1)) = Z.of_nat (tickCount i es) /\
  progressValue (ui (run es w1)) = Z.of_nat (length (sampled i es w1)).
Proof.
  intros Hre Hf Hd Hks w1 i Hn.
  assert (Hre1 : reachable w1).
  { exact (reachable_step (BtnStart fps duration desktop stamp true) w Hre). }
  pose proof (start_session fps duration desktop stamp Hf Hd w) as Hs.
  fold w1 i in Hs.
  set (total := qRound (Double.mul fps duration)) in *.
  pose proof (session_events_inv i total
    (fun k v => progressValue (ui v) = k /\ progressMaximum (ui v) = total)
    (fun _ => true)) as Hind.
  assert (Hinst :
    progressValue (ui (run es w1)) = 0 + Z.of_nat (tickCount i es) /\
    progressMaximum (ui (run es w1)) = total).
  { apply (Hind) with (rows := []); try assumption.
    - clear. intros k rows e v Hwf Hs Hk _ Hle [Hv Hm].
      pose proof (side_fields e v) as Hside.
      destruct e; cbn [keepsSession] in Hk; try discriminate;
        cbn [sampleAt length Z.of_nat] in *;
        try (destruct Hside as (-> & -> & _); split; [lia | assumption]).
      cbn [step snd]. destruct (Nat.eqb_spec timer i) as [-> | Hne].
      + cbn [length Z.of_nat Pos.of_succ_nat] in *.
        rewrite (session_own_tick i total k rows now v Hs ltac:(lia)).
        destruct (count_rest (k + 1) i now v) as (_ & _ & _ & _ & -> & ->).
        split; [reflexivity | assumption].
      + rewrite (session_other_tick i total k rows timer now v Hwf Hs Hne).
        split; [cbn; lia | assumption].
    - by apply reachable_WF.
    - clear. induction es; [reflexivity | exact IHes].
    - subst w1. rewrite start_ok by assumption. by split. }
  destruct Hinst as [Hv Hm]. rewrite length_sampled. repeat split; [exact Hm | lia | lia].
Qed.

Lemma progress_counts_witness :
  let w1 := snd (on_btnStart_clicked 2 (3 # 2) "Desktop" "2024-01-01_00-00-00" true initial) in
  let es := [TimerFired 0 "t1"; BtnZero; TimerFired 0 "t2"] in
  progressMaximum (ui (run es w1)) = 3 /\ progressValue (ui (run es w1)) = 2.
Proof.
  intros w1 es.
  destruct (progress_counts_the_rows initial 2 (3 # 2) "Desktop" "2024-01-01_00-00-00" es
              reachable_initial eq_refl eq_refl eq_refl ltac:(vm_compute; discriminate))
    as (H1 & H2 & _).
  split; [exact H1 | exact H2].
Defined.

(** X7: during a session (the firings of its timer within the frame budget,
    for which, with a product up to [INT_MAX], it is enough to stay within
    the product rounded to the nearest integer), as long as the Pico link is
    neither opened nor closed, the bytes sent to the Pico are one "1" per
    row written when the Pico port is open, and none when it is not. *)
Theorem one_trigger_per_row w fps duration desktop stamp es :
  reachable w -> (0 < fps)%Q -> (0 < duration)%Q ->
  forallb keepsSession es = true -> forallb keepsPico es = true ->
  let w1 := snd (on_btnStart_clicked fps duration desktop stamp true w) in
  let i := length (timers w) in
  Z.of_nat (tickCount i es) <= qRound (Double.mul fps duration) \/
  (fps * duration <= 2147483647)%Q /\
  Z.of_nat (tickCount i es) <= round_half_away_from_zero (fps * duration) ->
  picoWire (run es w1) =
    picoWire w ++
    (if picoIsOpen w then repeat "1"%char (length (sampled i es w1)) else []).
Proof.
  intros Hre Hf Hd Hks Hkp w1 i Hn.
  assert (Hre1 : reachable w1).
  { exact (reachable_step (BtnStart fps duration desktop stamp true) w Hre). }
  pose proof (start_session fps duration desktop stamp Hf Hd w) as Hs.
  fold w1 i in Hs.
  assert (Hle : Z.of_nat (tickCount i es) <= qRound (Double.mul fps duration)).
  { destruct Hn as [Hn | [Hhi Hn]]; [exact Hn |].
    eapply Z.le_trans; [exact Hn |].
    apply qRound_fl_lower; [by apply Qmult_lt_0_compat | exact Hhi]. }
  clear Hn.
  set (total := qRound (Double.mul fps duration)) in *.
  pose proof (session_events_inv i total
    (fun k v => 0 <= k /\ picoIsOpen v = picoIsOpen w /\
                picoWire v = picoWire w ++
                  (if picoIsOpen w then repeat "1"%char (Z.to_nat k) else []))
    keepsPico) as Hind.
  assert (Hinst :
    0 <= 0 + Z.of_nat (tickCount i es) /\
    picoIsOpen (run es w1) = picoIsOpen w /\
    picoWire (run es w1) = picoWire w ++
      (if picoIsOpen w
       then repeat "1"%char (Z.to_nat (0 + Z.of_nat (tickCount i es))) else [])).
  { apply (Hind) with (rows := []); try assumption.
    - clear. intros k rows e v Hwf Hs Hk Hp Hle (Hk0 & Ho & Hw).
      pose proof (side_fields e v) as Hside.
      destruct e; cbn [keepsSession keepsPico] in Hk, Hp; try discriminate;
        cbn [sampleAt length Z.of_nat] in *;
        try (destruct Hside as (_ & _ & Hside); destruct (Hside eq_refl) as [Hpp Hpw];
             rewrite Z.add_0_r; unfold picoIsOpen in *; rewrite Hpp, Hpw; by repeat split).
      cbn [step snd]. destruct (Nat.eqb_spec timer i) as [-> | Hne].
      + cbn [length Z.of_nat Pos.of_succ_nat] in *.
        rewrite (session_own_tick i total k rows now v Hs ltac:(lia)).
        destruct (count_rest (k + 1) i now v) as (_ & _ & Hpp & Hpw & _).
        split; [lia |]. split; [unfold picoIsOpen in *; by rewrite Hpp |].
        rewrite Hpw, Ho, Hw. destruct (picoIsOpen w); [| reflexivity].
        rewrite <- app_assoc. f_equal.
        replace (Z.to_nat (k + Z.of_nat 1)) with (Z.to_nat k + 1)%nat by lia.
        by rewrite repeat_app.
      + rewrite (session_other_tick i total k rows timer now v Hwf Hs Hne).
        rewrite Z.add_0_r. by repeat split.
    - by apply reachable_WF.
    - subst w1. rewrite start_ok by assumption. cbn [snd].
      split; [lia |]. split; [reflexivity |].
      cbn [picoWire Z.to_nat repeat]. destruct (picoIsOpen w); by rewrite app_nil_r. }
  destruct Hinst as (_ & _ & Hw). rewrite Hw, length_sampled.
  destruct (picoIsOpen w); [| reflexivity]. do 2 f_equal. lia.
Qed.

Lemma one_trigger_per_row_witness :
  let w := run [PicoButton "COM4" true] initial in
  let w1 := snd (on_btnStart_clicked 2 (3 # 2) "Desktop" "2024-01-01_00-00-00" true w) in
  let es := [TimerFired 0 "t1"; BtnZero; TimerFired 0 "t2"; TimerFired 0 "t3"] in
  picoWire (run es w1) = ["1"%char; "1"%char; "1"%char] /\
  picoWire (timeout 0 "t4" (run es w1)) = ["1"%char; "1"%char; "1"%char].
Proof.
  intros w w1 es. split; [| reflexivity].
  exact (one_trigger_per_row w 2 (3 # 2) "Desktop" "2024-01-01_00-00-00" es
           (reachable_run _ initial reachable_initial)
           eq_refl eq_refl eq_refl eq_refl
           ltac:(right; split; vm_compute; discriminate)).
Defined.

(** ** Retired timers *)

Lemma Tidy_same w w' :
  csvTimer w' = csvTimer w ->
  (forall j, deleteLater <$> timers w' !! j = deleteLater <$> timers w !! j) ->
  Tidy w -> Tidy w'.
Proof.
  intros Hc Ht Hw j t Hj. rewrite Hc. specialize (Ht j). rewrite Hj in Ht.
  destruct (timers w !! j) as [t0 |] eqn:E; [| discriminate].
  cbn in Ht. injection Ht as ->. by apply Hw.
Qed.

Lemma Tidy_alter (f : QTimer -> QTimer) c w w' :
  (forall t, deleteLater (f t) = deleteLater t) ->
  csvTimer w' = csvTimer w -> timers w' = alter f c (timers w) ->
  Tidy w -> Tidy w'.
Proof.
  intros Hf Hc Ht. apply Tidy_same; [exact Hc |]. intros j. rewrite Ht.
  destruct (decide (c = j)) as [-> | Hne].
  - rewrite list_lookup_alter_eq. destruct (timers w !! j); cbn; by rewrite ?Hf.
  - by rewrite list_lookup_alter_ne.
Qed.

Lemma Tidy_stop w : Tidy w -> Tidy (on_btnStop_clicked w).
Proof.
  intros Hw. destruct (stop_fields w) as (Et & Ec & _).
  destruct (csvTimer w) as [c |] eqn:E.
  - eapply (Tidy_alter QTimer_stop c w); try done. congruence.
  - apply (Tidy_same w); [congruence | by rewrite Et | done].
Qed.

Lemma Tidy_start_armed w (ui' : Ui) f rn tl tr bl d total ms sp pp buf pw :
  Tidy w -> WF w ->
  Tidy {| ui := ui'; _serialPort := sp; Pico_Port := pp; csvFile := f;
          csvRunning := rn; csvTimer := Some (length (timers w));
          zeroTopLeft := tl; zeroTopRight := tr; zeroBotLeft := bl;
          buffer := buf;
          timers := retire w ++ [mkQTimer true ms total 0 false];
          disk := d; picoWire := pw |}.
Proof.
  intros Hw Hwf j t Hj. cbn [timers csvTimer] in *.
  apply lookup_snoc_cases in Hj. destruct Hj as [[Hlt Hj] | [-> ->]].
  - rewrite length_retire in Hlt.
    assert (Hd : deleteLater t = true).
    { unfold retire in Hj. destruct (csvTimer w) as [c |] eqn:Ec.
      - destruct (decide (c = j)) as [-> | Hne].
        + rewrite !list_lookup_alter_eq in Hj.
          destruct (timers w !! j); cbn in Hj; [| discriminate].
          by injection Hj as <-.
        + rewrite !list_lookup_alter_ne in Hj by done.
          apply (Hw j t Hj). congruence.
      - apply (Hw j t Hj). congruence. }
    rewrite Hd. split; [| done]. intros _ [= E]. lia.
  - rewrite length_retire. cbn [deleteLater]. split; [discriminate | done].
Qed.

Lemma Tidy_step e w : WF w -> Tidy w -> Tidy (snd (step e w)).
Proof.
  intros Hwf Hw.
  assert (Hsame : forall w', capture w' = capture w -> Tidy w').
  { intros w' [= Et Ec _ _ _]. apply (Tidy_same w); [done | by rewrite Et | done]. }
  destruct e; cbn [step snd].
  - destruct (Qlt_le_dec 0 fps) as [Hf | Hf];
      [destruct (Qlt_le_dec 0 duration) as [Hd | Hd] |].
    + destruct openOk;
        [rewrite start_ok by assumption | rewrite start_failed by assumption];
        by apply Tidy_start_armed.
    + by rewrite start_invalid by auto.
    + by rewrite start_invalid by auto.
  - by apply Tidy_stop.
  - apply Hsame, capture_openPort.
  - apply Hsame, capture_closPort.
  - apply Hsame, capture_pico.
  - apply Hsame, capture_zero.
  - apply Hsame, capture_readData.
  - destruct (timeout_cases timer now w)
      as [-> | [(t & _ & _ & _ & ->) | (t & _ & _ & _ & ->)]].
    + done.
    + by apply Tidy_stop.
    + destruct (count_fields (framesCaptured t + 1) timer now w) as (Et & Ec & _).
      by eapply (Tidy_alter QTimer_count timer w).
Qed.

Lemma reachable_Tidy w : reachable w -> Tidy w.
Proof.
  induction 1 as [| e w Hre IH]; [intros j t [=] |].
  apply Tidy_step; [by apply reachable_WF | exact IH].
Qed.

(** X12: in every reachable window the timer [csvTimer] points to is not
    scheduled for deletion, and every other timer ever created is stopped
    and scheduled for deletion. *)
Theorem replaced_timers_are_stopped_and_deleted w j t :
  reachable w -> timers w !! j = Some t ->
  (csvTimer w = Some j -> deleteLater t = false) /\
  (csvTimer w <> Some j -> deleteLater t = true /\ isActive t = false).
Proof.
  intros Hre Hj. pose proof (reachable_Tidy w Hre j t Hj) as Ht.
  pose proof (reachable_WF w Hre) as Hwf. split.
  - intros Hc. destruct (deleteLater t); [| reflexivity].
    exfalso. by apply (proj1 Ht).
  - intros Hc. split; [by apply Ht |].
    destruct (isActive t) eqn:Ha; [| reflexivity].
    exfalso. apply Hc. by apply (wf_active w Hwf j t).
Qed.

Lemma replaced_timers_witness :
  let w := run [BtnStart 10 1 "Desktop" "2024-01-01_00-00-00" true;
                TimerFired 0 "t1";
                BtnStart 5 2 "Desktop" "2024-01-01_00-00-07" true;
                BtnStart 1 1 "Desktop" "2024-01-01_00-00-09" false] initial in
  timers w !! 1%nat = Some (mkQTimer false 200 10 0 true) /\
  csvTimer w = Some 2%nat.
Proof.
  intros w.
  assert (Hre : reachable w) by exact (reachable_run _ initial reachable_initial).
  assert (E : timers w !! 1%nat = Some (mkQTimer false 200 10 0 true))
    by (vm_compute; reflexivity).
  destruct (replaced_timers_are_stopped_and_deleted w 1%nat _ Hre E) as [_ H].
  split; [exact E | vm_compute; reflexivity].
Defined.

(** ** Captures without rows *)

(** X13: when [fps * duration] is at most 0.4999999999999999 (the binary64
    value next below one half but one, [1/2 - 2^-53]) the frame budget is 0:
    the start (file opened) writes the header, and the first tick writes no
    row, sends no trigger and leaves the window idle. *)
Theorem capture_below_half_a_frame_writes_no_row
    w fps duration desktop stamp now :
  reachable w -> (0 < fps)%Q -> (0 < duration)%Q ->
  (fps * duration <= (1 # 2) - (1 # 2 ^ 53))%Q ->
  let w1 := snd (on_btnStart_clicked fps duration desktop stamp true w) in
  let w2 := timeout (length (timers w)) now w1 in
  fst (on_btnStart_clicked fps duration desktop stamp true w) = [] /\
  progressMaximum (ui w1) = 0 /\
  csvLines w2 = [TextLine csvHeader] /\
  picoWire w2 = picoWire w /\
  Idle w2.
Proof.
  intros Hre Hf Hd Hlt w1 w2.
  assert (Hq : qRound (Double.mul fps duration) = 0).
  { apply qRound_fl_zero; [by apply Qmult_lt_0_compat | exact Hlt]. }
  assert (Hre1 : reachable w1).
  { exact (reachable_step (BtnStart fps duration desktop stamp true) w Hre). }
  pose proof (start_session fps duration desktop stamp Hf Hd w) as Hs.
  fold w1 in Hs. rewrite Hq in Hs.
  assert (E2 : w2 = on_btnStop_clicked w1).
  { subst w2. eapply session_last_tick; [exact Hs | lia]. }
  destruct (session_stop _ _ _ _ w1 (reachable_WF _ Hre1) Hs) as (Hl & Hidle & _).
  split; [by rewrite start_ok |]. split; [| split; [| split]].
  - subst w1. rewrite start_ok by assumption. exact Hq.
  - rewrite E2. exact Hl.
  - rewrite E2. destruct (stop_rest w1) as (_ & -> & _).
    subst w1. by rewrite start_ok.
  - rewrite E2. exact Hidle.
Qed.

Lemma capture_below_half_witness :
  let w1 := snd (on_btnStart_clicked (1 # 100) 30 "Desktop" "2024-01-01_00-00-00" true initial) in
  csvLines (timeout 0 "t1" w1) = [TextLine csvHeader] /\ Idle (timeout 0 "t1" w1).
Proof.
  intros w1.
  destruct (capture_below_half_a_frame_writes_no_row
              initial (1 # 100) 30 "Desktop" "2024-01-01_00-00-00" "t1"
              reachable_initial eq_refl eq_refl ltac:(vm_compute; discriminate))
    as (_ & _ & H1 & _ & H2).
  split; [exact H1 | exact H2].
Defined.

(** ** The interval as a function of the rate *)

Lemma period_antitone (a b : Q) :
  (0 < a)%Q -> (a <= b)%Q -> (1000 / b <= 1000 / a)%Q.
Proof.
  intros Ha Hab. assert (Hb : (0 < b)%Q) by (eapply Qlt_le_trans; eassumption).
  apply Qle_shift_div_l; [exact Ha |].
  assert (E : (1000 / b * a == 1000 * (a / b))%Q) by (unfold Qdiv; ring).
  rewrite E. rewrite <- (Qmult_1_r 1000) at 2.
  apply Qmult_le_l; [reflexivity |].
  apply Qle_shift_div_r; [exact Hb |]. by rewrite Qmult_1_l.
Qed.

(** X14: the interval is at least 1 ms; among the rates whose period
    1000 / fps is at most [INT_MAX] it does not grow with the rate; from
    667 fps upwards it is 1 ms. Below those rates it is not monotone: at
    0.00000001 fps (as binary64) the conversion is out of range and the
    interval is 1 ms, at 0.000001 fps it is 1000000000 ms. *)
Theorem intervalMs_decreases_with_the_rate (fps1 fps2 : Q) :
  (0 < fps1)%Q -> (fps1 <= fps2)%Q ->
  1 <= intervalMs fps2 /\
  ((1000 / fps1 <= 2147483647)%Q -> intervalMs fps2 <= intervalMs fps1) /\
  ((667 <= fps1)%Q -> intervalMs fps2 = 1) /\
  intervalMs (Double.div 1 100000000) = 1 /\
  intervalMs (Double.div 1 1000000) = 1000000000.
Proof.
  intros H1 H12.
  assert (H2 : (0 < fps2)%Q) by (eapply Qlt_le_trans; eassumption).
  assert (Hmono : forall a b, (0 < a)%Q -> (a <= b)%Q ->
            (1000 / a <= 2147483647)%Q -> intervalMs b <= intervalMs a).
  { intros a b Ha Hab Hhi. unfold intervalMs. rewrite !qMax_max.
    apply Z.max_le_compat_l. apply qRound_fl_monotone; [| by apply period_antitone | exact Hhi].
    apply Qdiv_pos; [reflexivity |]. eapply Qlt_le_trans; eassumption. }
  assert (Hlo : 1 <= intervalMs fps2) by (unfold intervalMs; rewrite qMax_max; lia).
  split; [exact Hlo |]. split; [| split; [| split]].
  - by apply Hmono.
  - intros H667.
    assert (Hhi : intervalMs fps2 <= intervalMs 667).
    { apply Hmono; [reflexivity | eapply Qle_trans; eassumption |].
      vm_compute. discriminate. }
    assert (E : intervalMs 667 = 1) by (vm_compute; reflexivity).
    lia.
  - vm_compute. reflexivity.
  - vm_compute. reflexivity.
Qed.

Lemma intervalMs_decreases_witness :
  1 <= intervalMs 700 <= intervalMs 30 /\ intervalMs 1000 = 1.
Proof.
  destruct (intervalMs_decreases_with_the_rate 30 700 eq_refl
              ltac:(vm_compute; discriminate)) as (Hlo & H & _).
  destruct (intervalMs_decreases_with_the_rate 667 1000 eq_refl
              ltac:(vm_compute; discriminate)) as (_ & _ & H' & _).
  split; [split; [exact Hlo | apply H; vm_compute; discriminate]
         | apply H'; vm_compute; discriminate].
Defined.

(** ** The key filter *)

Lemma land_ControlModifier m :
  (Z.land m ControlModifier =? 0) = negb (Z.testbit m 26).
Proof.
  assert (E : Z.land m ControlModifier = if Z.testbit m 26 then 2 ^ 26 else 0).
  { apply Z.bits_inj'. intros n Hn. rewrite Z.land_spec.
    change ControlModifier with (2 ^ 26). rewrite Z.pow2_bits_eqb by lia.
    destruct (Z.eqb_spec 26 n) as [<- | Hne].
    - destruct (Z.testbit m 26); cbn [andb].
      + by rewrite Z.pow2_bits_true by lia.
      + by rewrite Z.bits_0.
    - rewrite andb_false_r. destruct (Z.testbit m 26).
      + rewrite Z.pow2_bits_false by lia. reflexivity.
      + by rewrite Z.bits_0. }
  rewrite E. by destruct (Z.testbit m 26).
Qed.

(** X15: [eventFilter] blocks an event exactly when it is a key press on one
    of the two spin boxes, of the key 8, 9 or 0, with the Control bit (bit
    26) set among the modifiers, whatever the other modifiers are. *)
Theorem eventFilter_blocks_exactly_ctrl_digits watched event :
  eventFilter watched event = true <->
  (watched = framesPerSecond \/ watched = captureLengthSeconds) /\
  exists keyEvent,
    event = KeyPress keyEvent /\
    (key keyEvent = Key_8 \/ key keyEvent = Key_9 \/ key keyEvent = Key_0) /\
    Z.testbit (modifiers keyEvent) 26 = true.
Proof.
  unfold eventFilter. split.
  - intros H.
    assert (Hgen : forall k,
      (if ((key k =? Key_8) || (key k =? Key_9) || (key k =? Key_0)) &&
          negb (Z.land (modifiers k) ControlModifier =? 0)
       then true else false) = true ->
      (key k = Key_8 \/ key k = Key_9 \/ key k = Key_0) /\
      Z.testbit (modifiers k) 26 = true).
    { intros k Hk. rewrite land_ControlModifier, negb_involutive in Hk.
      destruct (Z.eqb_spec (key k) Key_8), (Z.eqb_spec (key k) Key_9),
        (Z.eqb_spec (key k) Key_0), (Z.testbit (modifiers k) 26);
        cbn in Hk; try discriminate; auto. }
    destruct watched, event as [k |]; try discriminate;
      (split; [auto | exists k; split; [reflexivity | by apply Hgen]]).
  - intros [Hw (k & -> & Hk & Hc)].
    rewrite land_ControlModifier, negb_involutive, Hc, andb_true_r.
    assert (Hor : (key k =? Key_8) || (key k =? Key_9) || (key k =? Key_0) = true).
    { destruct Hk as [-> | [-> | ->]]; reflexivity. }
    rewrite Hor. destruct Hw as [-> | ->]; reflexivity.
Qed.

(** ** The port lists *)

Lemma addItems_app ports : forall items, addItems ports items = items ++ ports.
Proof.
  unfold addItems. induction ports as [| p ports IH]; intros items; cbn [fold_left].
  - by rewrite app_nil_r.
  - rewrite IH, <- app_assoc. reflexivity.
Qed.

(** X16: a refresh leaves the list of a connected link as it is and sets the
    list of an unconnected one to the available ports, in their order; a
    refresh after an earlier one gives the same lists as the refresh alone,
    so items do not pile up. *)
Theorem refresh_lists_only_unconnected_links
    availableHC availablePico w lists :
  let lists' := on_btnRefreshPorts_clicked availableHC availablePico w lists in
  HC06Ports lists' =
    (match _serialPort w with Some _ => HC06Ports lists | None => availableHC end) /\
  PicoPorts lists' =
    (match Pico_Port w with Some _ => PicoPorts lists | None => availablePico end) /\
  (forall earlierHC earlierPico,
      on_btnRefreshPorts_clicked availableHC availablePico w
        (on_btnRefreshPorts_clicked earlierHC earlierPico w lists) = lists').
Proof.
  cbv zeta. unfold on_btnRefreshPorts_clicked. rewrite !addItems_app.
  destruct (_serialPort w) as [sp |], (Pico_Port w) as [pp |];
    cbn [HC06Ports PicoPorts app]; repeat split; intros; by destruct lists.
Qed.

(** ** Closing the ports *)

Lemma pico_closed_step e w :
  Pico_Port w = None -> notPicoButton e = true ->
  Pico_Port (snd (step e w)) = None /\ picoWire (snd (step e w)) = picoWire w.
Proof.
  intros Hp He.
  destruct e; cbn [notPicoButton step snd] in *; try discriminate.
  - destruct (Qlt_le_dec 0 fps) as [Hf | Hf];
      [destruct (Qlt_le_dec 0 duration) as [Hd | Hd] |].
    + destruct openOk;
        [rewrite start_ok by assumption | rewrite start_failed by assumption];
        by split.
    + by rewrite start_invalid by auto.
    + by rewrite start_invalid by auto.
  - destruct (stop_rest w) as (_ & -> & _ & ->). by split.
  - unfold on_btnOpenPort_clicked. destruct openOk; by split.
  - unfold on_btnClosPort_clicked.
    destruct w as [u sp pp f rn tm ztl ztr zbl buf ts dk pw]. cbn in Hp. subst pp.
    destruct sp; by split.
  - by split.
  - pose proof (side_fields (ReadyRead bytes) w) as H. cbn [step snd keepsPico] in H.
    destruct H as (_ & _ & H). destruct (H eq_refl) as [-> ->]. by split.
  - destruct (timeout_cases timer now w)
      as [-> | [(t & _ & _ & _ & ->) | (t & _ & _ & _ & ->)]].
    + by split.
    + destruct (stop_rest w) as (_ & -> & _ & ->). by split.
    + destruct (count_rest (framesCaptured t + 1) timer now w)
        as (_ & _ & -> & -> & _).
      unfold picoIsOpen. rewrite Hp. by split.
Qed.

Lemma pico_closed_run es : forall w,
  Pico_Port w = None -> forallb notPicoButton es = true ->
  picoWire (run es w) = picoWire w.
Proof.
  induction es as [| e es IH]; intros w Hp Hes; [reflexivity |].
  cbn [forallb] in Hes. apply andb_true_iff in Hes. destruct Hes as [He Hes].
  destruct (pico_closed_step e w Hp He) as [Hp' Hw]. cbn [run].
  by rewrite (IH _ Hp' Hes).
Qed.

(** X17: Close Port leaves no port and does not touch the capture; pressed
    again it changes nothing; afterwards read bytes change nothing, and no
    byte is sent to the Pico until the Pico button is pressed. Offsets and
    displays are reset to 0 if the sensor port was connected and kept if it
    was not. *)
Theorem close_port_drops_both_links w :
  let w' := on_btnClosPort_clicked w in
  _serialPort w' = None /\ Pico_Port w' = None /\
  capture w' = capture w /\
  on_btnClosPort_clicked w' = w' /\
  (forall bytes, readData bytes w' = w') /\
  (forall es, forallb notPicoButton es = true -> picoWire (run es w') = picoWire w) /\
  (_serialPort w = None -> offsets w' = offsets w /\ displayed w' = displayed w) /\
  (is_Some (_serialPort w) -> offsets w' = (0, 0, 0) /\ displayed w' = (0, 0, 0)).
Proof.
  intros w'.
  assert (Hs : _serialPort w' = None /\ Pico_Port w' = None /\ picoWire w' = picoWire w).
  { subst w'. unfold on_btnClosPort_clicked.
    destruct w as [u sp pp f rn tm ztl ztr zbl buf ts dk pw].
    destruct sp, pp; by repeat split. }
  destruct Hs as (Hsp & Hpp & Hpw).
  split; [exact Hsp |]. split; [exact Hpp |]. split; [apply capture_closPort |].
  split; [| split; [| split; [| split]]].
  - unfold on_btnClosPort_clicked at 1. by rewrite Hsp, Hpp.
  - intros bytes. unfold readData. by rewrite Hsp.
  - intros es Hes. by rewrite (pico_closed_run es w' Hpp Hes).
  - intros Hn. subst w'. unfold on_btnClosPort_clicked.
    destruct w as [u sp pp f rn tm ztl ztr zbl buf ts dk pw]. cbn in Hn. subst sp.
    destruct pp; by split.
  - intros [p Hp]. subst w'. unfold on_btnClosPort_clicked.
    destruct w as [u sp pp f rn tm ztl ztr zbl buf ts dk pw]. cbn in Hp. subst sp.
    destruct pp; by split.
Qed.

(** ** Destruction *)

(** X18: the destructor leaves the disk as it is, the file closed, the
    recording off and no port; the body of a timer's lambda run afterwards
    writes nothing. *)
Theorem destructor_closes_the_file_and_keeps_its_rows w :
  let w' := MainWindow_destructor w in
  disk w' = disk w /\
  csvLines w' = csvLines w /\
  isOpen (csvFile w') = false /\
  csvRunning w' = false /\
  _serialPort w' = None /\ Pico_Port w' = None /\
  (forall i now, disk (timerLambda i now w') = disk w').
Proof.
  intros w'.
  assert (H : disk w' = disk w /\ csvLines w' = csvLines w /\
              isOpen (csvFile w') = false /\ csvRunning w' = false /\
              _serialPort w' = None /\ Pico_Port w' = None).
  { subst w'. unfold MainWindow_destructor, stopCsvRecording, csvFile_close, csvLines.
    destruct w as [u sp pp [fn op] rn tm ztl ztr zbl buf ts dk pw].
    destruct op, sp, pp; by repeat split. }
  destruct H as (H1 & H2 & H3 & H4 & H5 & H6).
  repeat split; try assumption.
  intros i now. by apply timerLambda_no_row.
Qed.
